(** * rrvideo: the recording orchestrator of [src/index.ts]

    A shallow embedding of the TypeScript module [src/index.ts] of
    rrweb-io/rrvideo: the page template [getHtml], the configuration
    defaults of the [RRvideo] constructor, the three lifecycle handlers
    [startRecording], [finishRecording] and [getConsoleMsg], the capture
    timer and the three [ffmpeg] event handlers, and the promise built by
    [transformToVideo].

    Node is single-threaded: a handler is never interrupted between two
    of its statements.  The embedding gives one transition per delivered
    signal.  Two handlers contain an [await]: [startRecording] waits for
    [page.$] and the interval callback waits for the screenshot.  What is
    awaited is a parameter of the signal and the rest of the handler is
    part of the same transition; in both handlers the code after the
    [await] reads only [this.config], which never changes, and the objects
    of its own closure. *)

From Stdlib Require Import ZArith String Ascii List Lia DecimalString DecimalZ Sorted.
From stdpp Require Import base list strings.
Import ListNotations.

Local Open Scope string_scope.
Local Open Scope Z_scope.

(** ** JavaScript values that the module handles *)

(** The numbers of the configuration (frame rate, delay in ms, pixel
    dimensions) are integers or [NaN]; fractional values are outside the
    embedding. *)
Inductive number : Type :=
| NaN
| Num (z : Z).

(** [ToBoolean] on a number: [0] and [NaN] are falsy. *)
Definition truthy_number (n : number) : bool :=
  match n with
  | NaN => false
  | Num z => negb (z =? 0)
  end.

(** [ToBoolean] on a string: only the empty string is falsy. *)
Definition truthy_string (s : string) : bool :=
  match s with
  | EmptyString => false
  | String _ _ => true
  end.

(** [Number.prototype.toString()] on the embedded numbers.  It prints
    the decimal numeral of an integer, as JavaScript does for the integers
    it represents exactly (below [2^53] in absolute value). *)
Definition toString (n : number) : string :=
  match n with
  | NaN => "NaN"
  | Num z => NilZero.string_of_int (Z.to_int z)
  end.

(** [a || b] where a missing property reads as [undefined] (falsy). *)
Definition or_default {A : Type} (truthy : A -> bool) (a : option A) (d : A) : A :=
  match a with
  | Some x => if truthy x then x else d
  | None => d
  end.

(** [String.prototype.indexOf]: position of the first occurrence, [-1]
    when there is none. *)
Definition indexOf (s pat : string) : Z :=
  match String.index 0 pat s with
  | Some n => Z.of_nat n
  | None => -1
  end.

(** ** The page template, [getHtml] *)

Definition script_close : string := "</script>".
Definition script_close_escaped : string := "<\/script>".

(** [s.replace(/pat/g, rep)] for a literal, non-empty pattern and a
    replacement without [$]: the matcher scans from the left, replaces a
    match and resumes after it.  [skip] counts the characters of the
    current match that are still to be consumed. *)
Fixpoint replace_from (pat rep : string) (skip : nat) (s : string) : string :=
  match s with
  | EmptyString => EmptyString
  | String c s' =>
      match skip with
      | S k => replace_from pat rep k s'
      | O =>
          if String.prefix pat s
          then rep +:+ replace_from pat rep (Nat.pred (String.length pat)) s'
          else String c (replace_from pat rep O s')
      end
  end.

Definition replace (pat rep s : string) : string := replace_from pat rep O s.

(** Does [pat] occur in [s] at some position? *)
Fixpoint occurs (pat s : string) : bool :=
  String.prefix pat s ||
  match s with
  | EmptyString => false
  | String _ s' => occurs pat s'
  end.

(** The last character of a text, if it has one. *)
Fixpoint last_char (s : string) : option ascii :=
  match s with
  | EmptyString => None
  | String c s' =>
      match last_char s' with
      | Some d => Some d
      | None => Some c
      end
  end.

(** What "every occurrence is replaced" means, read from left to right. *)
Inductive Replaced (pat rep : string) : string -> string -> Prop :=
| Replaced_nil : Replaced pat rep EmptyString EmptyString
| Replaced_hit s t :
    Replaced pat rep s t -> Replaced pat rep (pat +:+ s) (rep +:+ t)
| Replaced_miss c s t :
    String.prefix pat (String c s) = false ->
    Replaced pat rep s t -> Replaced pat rep (String c s) (String c t).

Section Html.
(** The bundle and style sheet of rrweb-player, read from disk at load
    time, and [JSON.stringify] on the trace and on the player options. *)
Context {eventWithTime playerOptions : Type}.
Variable rrwebRaw rrwebStyle : string.
Variable JSON_stringify_events : list eventWithTime -> string.
Variable JSON_stringify_config : playerOptions -> string.

Definition nl : string := String (ascii_of_nat 10) EmptyString.

(** The text of the template before the serialized events... *)
Definition html_head : string :=
  nl +:+ "<html>" +:+ nl +:+
  "  <head>" +:+ nl +:+
  "  <style>" +:+ rrwebStyle +:+ "</style>" +:+ nl +:+
  "  </head>" +:+ nl +:+
  "  <body>" +:+ nl +:+
  "    <script>" +:+ nl +:+
  "      " +:+ rrwebRaw +:+ ";" +:+ nl +:+
  "      /*<!--*/" +:+ nl +:+
  "      const events = ".

(** ...between the events and the player options... *)
Definition html_mid : string :=
  ";" +:+ nl +:+
  "      /*-->*/" +:+ nl +:+
  "      const userConfig = ".

(** ...and after them: the in-page script, whose behaviour is embedded
    below as [playerProps], [startDelay] and [startsImmediately]. *)
Definition html_tail : string :=
  ";" +:+ nl +:+
  "      try {" +:+ nl +:+
  "        window.replayer = new rrwebPlayer({" +:+ nl +:+
  "          target: document.body," +:+ nl +:+
  "          props: {" +:+ nl +:+
  "            events," +:+ nl +:+
  "            showController: false," +:+ nl +:+
  "            autoPlay: false, // autoPlay off by default" +:+ nl +:+
  "            ...userConfig" +:+ nl +:+
  "          }," +:+ nl +:+
  "        }); " +:+ nl +:+ nl +:+
  "        window.replayer.addEventListener('finish', () => window.onReplayFinish());" +:+ nl +:+
  "        let time = userConfig.startDelayTime || 1000 // start playback delay time, default 1000ms" +:+ nl +:+
  "        let start = fn => {" +:+ nl +:+
  "          setTimeout(() => {" +:+ nl +:+
  "            fn()" +:+ nl +:+
  "          }, time)" +:+ nl +:+
  "        }" +:+ nl +:+
  "        // It is recommended not to play auto by default. If the speed is not 1, the page block in the early stage of autoPlay will be blank" +:+ nl +:+
  "        if (userConfig.autoPlay) {" +:+ nl +:+
  "          start = fn => {" +:+ nl +:+
  "            fn()" +:+ nl +:+
  "          };" +:+ nl +:+
  "        }" +:+ nl +:+
  "        start(() => {" +:+ nl +:+
  "          window.onReplayStart();" +:+ nl +:+
  "          window.replayer.play();" +:+ nl +:+
  "        })" +:+ nl +:+
  "      }catch(e){" +:+ nl +:+
  "        // When I pass in the wrong JSON file, for example the file content is only [], the replayer will throw an exception in the console, but this exception cannot be caught by this conversion program, the program will not be able to continue, and the result will not be returned. We recommend that you catch the exception and handle it." +:+ nl +:+
  "        console.error(" +:+ String (ascii_of_nat 34) "Replayer Uncaught Error:" +:+
    String (ascii_of_nat 34) "+e.message);" +:+ nl +:+
  "      }" +:+ nl +:+
  "    </script>" +:+ nl +:+
  "  </body>" +:+ nl +:+
  "</html>" +:+ nl.

(** The events as they are written into the script element. *)
Definition embedded_events (events : list eventWithTime) : string :=
  replace script_close script_close_escaped (JSON_stringify_events events).

(** [getHtml(events, config)]; the constructor always supplies [config]
    (at least the empty object), so the [{}] branch of line 39 is not
    taken. *)
Definition getHtml (events : list eventWithTime) (config : playerOptions) : string :=
  html_head +:+ embedded_events events +:+ html_mid +:+
  JSON_stringify_config config +:+ html_tail.
End Html.

(** ** Configuration *)

(** The part of [RRwebPlayerOptions["props"] & Config] that the module
    reads; an absent property is [None]. *)
Record PlayerOptions : Type := {
  width : option number;
  height : option number;
  autoPlay : option bool;
  showController : option bool;
  startDelayTime : option number;
}.

(** [{}] *)
Definition no_player_options : PlayerOptions :=
  {| width := None; height := None; autoPlay := None;
     showController := None; startDelayTime := None |}.

Record Error : Type := { message : string }.

(** What reaches the second parameter of [cb] besides [null]: an [Error]
    object from Node or puppeteer, or, from [getConsoleMsg], the text of a
    console message as a plain string. *)
Inductive Failure : Type :=
| ErrorObject (e : Error)
| RawText (text : string).

Definition truthy_failure (f : Failure) : bool :=
  match f with
  | ErrorObject _ => true
  | RawText text => truthy_string text
  end.

(** The two callbacks of the module: [defaultConfig.cb], which does
    nothing, and the one [transformToVideo] builds around its promise. *)
Inductive Callback : Type :=
| NoopCb
| PromiseCb.

Record RRvideoConfig : Type := {
  fps : number;
  headless : bool;
  input : string;
  cb : Callback;
  output : string;
  rrwebPlayer : PlayerOptions;
}.

(** [Partial<RRvideoConfig> & { input: string }] *)
Record Options : Type := {
  opt_fps : option number;
  opt_headless : option bool;
  opt_input : string;
  opt_cb : option Callback;
  opt_output : option string;
  opt_rrwebPlayer : option PlayerOptions;
}.

Definition defaultConfig : RRvideoConfig :=
  {| fps := Num 15;
     headless := true;
     input := EmptyString;
     cb := NoopCb;
     output := "rrvideo-output.mp4";
     rrwebPlayer := no_player_options |}.

(** The body of the constructor: [config?.f || defaultConfig.f] for each
    field.  Functions and objects are always truthy. *)
Definition effective_config (config : option Options) : RRvideoConfig :=
  {| fps := or_default truthy_number (config ≫= opt_fps) (fps defaultConfig);
     headless := or_default id (config ≫= opt_headless) (headless defaultConfig);
     input := or_default truthy_string (opt_input <$> config) (input defaultConfig);
     cb := or_default (fun _ => true) (config ≫= opt_cb) (cb defaultConfig);
     output := or_default truthy_string (config ≫= opt_output) (output defaultConfig);
     rrwebPlayer :=
       or_default (fun _ => true) (config ≫= opt_rrwebPlayer) (rrwebPlayer defaultConfig) |}.

(** ** The script that runs inside the page *)

(** The [props] object handed to [rrwebPlayer]:
    [{ events, showController: false, autoPlay: false, ...userConfig }]. *)
Record PlayerProps : Type := {
  props_showController : bool;
  props_autoPlay : bool;
  props_width : option number;
  props_height : option number;
}.

Definition playerProps (userConfig : PlayerOptions) : PlayerProps :=
  {| props_showController := default false (showController userConfig);
     props_autoPlay := default false (autoPlay userConfig);
     props_width := width userConfig;
     props_height := height userConfig |}.

(** [let time = userConfig.startDelayTime || 1000] *)
Definition startDelay (userConfig : PlayerOptions) : number :=
  or_default truthy_number (startDelayTime userConfig) (Num 1000).

(** [if (userConfig.autoPlay)]: [start] calls [fn] at once, without the
    timer. *)
Definition startsImmediately (userConfig : PlayerOptions) : bool :=
  or_default id (autoPlay userConfig) false.

(** ** The promise of [transformToVideo] *)

Inductive Promise : Type :=
| Pending
| Fulfilled (file : string)
| Rejected (reason : Failure).

(** [resolve] and [reject] of a settled promise do nothing. *)
Definition resolve (file : string) (p : Promise) : Promise :=
  match p with
  | Pending => Fulfilled file
  | _ => p
  end.

Definition reject (reason : Failure) (p : Promise) : Promise :=
  match p with
  | Pending => Rejected reason
  | _ => p
  end.

(** The callback of [transformToVideo]:
    [if (error) return reject(error); resolve(file)]. *)
Definition promise_cb (file : string) (error : option Failure) (p : Promise) : Promise :=
  match error with
  | Some f => if truthy_failure f then reject f p else resolve file p
  | None => resolve file p
  end.

(** ** The orchestrator *)

Inductive Lifecycle : Type :=
| idle
| recording
| closed.

#[export] Instance Lifecycle_eq_dec : EqDecision Lifecycle.
Proof. solve_decision. Defined.

(** Position of a state on the path idle, recording, closed. *)
Definition rank (l : Lifecycle) : nat :=
  match l with
  | idle => 0
  | recording => 1
  | closed => 2
  end.

Definition Buffer : Type := list Byte.byte.

(** What one call of [startRecording] creates and keeps in its closure:
    the element handle, the [ffmpeg] child process with its [stdin], and
    the interval timer. *)
Record Recorder : Type := {
  rec_selector : string;          (* the selector [wrapperEl] came from *)
  rec_command : string;           (* first argument of [spawn] *)
  rec_args : list string;         (* second argument of [spawn] *)
  rec_outputPath : string;
  rec_timer : bool;               (* the interval is still scheduled *)
  rec_screenshots : nat;          (* calls of [wrapperEl.screenshot] *)
  rec_written : list Buffer;      (* buffers passed to [stdin.write] *)
  rec_stdin_end : nat;            (* calls of [stdin.end] *)
}.

(** The instance fields of [RRvideo], followed by what the instance has
    done to the outside world so far. *)
Record RRvideo : Type := {
  config : RRvideoConfig;
  state : Lifecycle;
  processError : option Error;
  launched : list bool;           (* [headless] of each [puppeteer.launch] *)
  browser_close : nat;            (* calls of [browser.close] *)
  queried : list string;          (* selectors passed to [page.$] *)
  uncaught : list Error;          (* errors thrown out of a handler *)
  recorders : list Recorder;
  cb_calls : list (string * option Failure);
  promise : Promise;
}.

Definition set_state (l : Lifecycle) (s : RRvideo) : RRvideo :=
  {| config := config s; state := l; processError := processError s;
     launched := launched s; browser_close := browser_close s;
     queried := queried s; uncaught := uncaught s; recorders := recorders s;
     cb_calls := cb_calls s; promise := promise s |}.

Definition set_processError (e : option Error) (s : RRvideo) : RRvideo :=
  {| config := config s; state := state s; processError := e;
     launched := launched s; browser_close := browser_close s;
     queried := queried s; uncaught := uncaught s; recorders := recorders s;
     cb_calls := cb_calls s; promise := promise s |}.

Definition set_recorders (rs : list Recorder) (s : RRvideo) : RRvideo :=
  {| config := config s; state := state s; processError := processError s;
     launched := launched s; browser_close := browser_close s;
     queried := queried s; uncaught := uncaught s; recorders := rs;
     cb_calls := cb_calls s; promise := promise s |}.

(** [puppeteer.launch({ headless })] *)
Definition puppeteer_launch (s : RRvideo) : RRvideo :=
  {| config := config s; state := state s; processError := processError s;
     launched := launched s ++ [headless (config s)];
     browser_close := browser_close s;
     queried := queried s; uncaught := uncaught s; recorders := recorders s;
     cb_calls := cb_calls s; promise := promise s |}.

(** [this.browser.close()] *)
Definition browser_close_call (s : RRvideo) : RRvideo :=
  {| config := config s; state := state s; processError := processError s;
     launched := launched s; browser_close := S (browser_close s);
     queried := queried s; uncaught := uncaught s; recorders := recorders s;
     cb_calls := cb_calls s; promise := promise s |}.

(** [this.page.$(selector)] *)
Definition page_query (selector : string) (s : RRvideo) : RRvideo :=
  {| config := config s; state := state s; processError := processError s;
     launched := launched s; browser_close := browser_close s;
     queried := queried s ++ [selector]; uncaught := uncaught s;
     recorders := recorders s;
     cb_calls := cb_calls s; promise := promise s |}.

(** [throw e] with no handler around it. *)
Definition throw (e : Error) (s : RRvideo) : RRvideo :=
  {| config := config s; state := state s; processError := processError s;
     launched := launched s; browser_close := browser_close s;
     queried := queried s; uncaught := uncaught s ++ [e];
     recorders := recorders s;
     cb_calls := cb_calls s; promise := promise s |}.

(** [this.config.cb(file, error)] *)
Definition call_cb (file : string) (error : option Failure) (s : RRvideo) : RRvideo :=
  {| config := config s; state := state s; processError := processError s;
     launched := launched s; browser_close := browser_close s;
     queried := queried s; uncaught := uncaught s; recorders := recorders s;
     cb_calls := cb_calls s ++ [(file, error)];
     promise :=
       match cb (config s) with
       | PromiseCb => promise_cb file error (promise s)
       | NoopCb => promise s
       end |}.

(** [new RRvideo(config)] *)
Definition new_RRvideo (config : option Options) : RRvideo :=
  {| config := effective_config config; state := idle; processError := None;
     launched := []; browser_close := 0%nat; queried := []; uncaught := [];
     recorders := []; cb_calls := []; promise := Pending |}.

(** [transformToVideo(config)] up to the call of [init]:
    [new RRvideo({ ...config, cb })] inside a fresh promise. *)
Definition transformToVideo (config : Options) : RRvideo :=
  new_RRvideo
    (Some {| opt_fps := opt_fps config; opt_headless := opt_headless config;
             opt_input := opt_input config; opt_cb := Some PromiseCb;
             opt_output := opt_output config;
             opt_rrwebPlayer := opt_rrwebPlayer config |}).

(** [ToBoolean] of a property that may be absent. *)
Definition truthy_prop {A : Type} (truthy : A -> bool) (a : option A) : bool :=
  match a with
  | Some x => truthy x
  | None => false
  end.

(** Lines 148-151: the region of the page that is sampled. *)
Definition wrapperSelector (p : PlayerOptions) : string :=
  if truthy_prop truthy_number (width p) && truthy_prop truthy_number (height p)
  then ".rr-player"
  else ".replayer-wrapper".

(** ** Signals and handlers *)

Record ConsoleMessage : Type := {
  msg_type : string;
  msg_text : string;
}.

Definition marker : string := "Replayer Uncaught Error:".

(** The test of line 228. *)
Definition is_uncaught_error (m : ConsoleMessage) : bool :=
  bool_decide (msg_type m = "error") && (indexOf (msg_text m) marker =? 0).

(** How far [init] gets before it throws, if it does. *)
Inductive InitOutcome : Type :=
| LaunchFails (e : Error)       (* [puppeteer.launch] is called and throws *)
| LoadFails (e : Error)         (* a later step throws: page, file, JSON *)
| InitDone.

(** What the [try] block of the interval callback does: it throws, or it
    gets a buffer and writes it. *)
Inductive Screenshot : Type :=
| ShotFails
| ShotOk (buffer : Buffer).

(** Everything that can call into the instance.  [i] names the recorder
    (the closure of one [startRecording] call) a timer or [ffmpeg] event
    belongs to. *)
Inductive Signal : Type :=
| Init (o : InitOutcome)
| OnReplayStart (found : bool)       (* [found]: [page.$] returned an element *)
| OnReplayFinish
| Console (msg : list ConsoleMessage)
| Tick (i : nat) (shot : Screenshot) (* [shot]: outcome if a capture is tried *)
| FfmpegClose (i : nat)
| FfmpegError (i : nat) (e : Error)
| StdinError (i : nat) (e : Error).

(** [process.cwd()], [path.isAbsolute] and [path.resolve] of Node. *)
Class NodePath : Type := {
  cwd : string;
  path_isAbsolute : string -> bool;
  path_resolve : string -> string -> string;
}.

Section Orchestrator.
Context `{node : NodePath}.

Definition ffmpeg_args (c : RRvideoConfig) : list string :=
  ["-framerate"; toString (fps c); "-f"; "image2pipe"; "-i"; "-"; "-y"; output c].

Definition outputPath (c : RRvideoConfig) : string :=
  if path_isAbsolute (output c) then output c else path_resolve cwd (output c).

Definition init (o : InitOutcome) (s : RRvideo) : RRvideo :=
  match o with
  | LaunchFails e => call_cb EmptyString (Some (ErrorObject e)) (puppeteer_launch s)
  | LoadFails e => call_cb EmptyString (Some (ErrorObject e)) (puppeteer_launch s)
  | InitDone => puppeteer_launch s
  end.

Definition startRecording (found : bool) (s : RRvideo) : RRvideo :=
  let s := set_state recording s in
  let wrapperSelector := wrapperSelector (rrwebPlayer (config s)) in
  let s := page_query wrapperSelector s in
  if negb found then throw {| message := "failed to get replayer element" |} s
  else
    set_recorders
      (recorders s ++
         [{| rec_selector := wrapperSelector;
             rec_command := "ffmpeg";
             rec_args := ffmpeg_args (config s);
             rec_outputPath := outputPath (config s);
             rec_timer := true;
             rec_screenshots := 0%nat;
             rec_written := [];
             rec_stdin_end := 0%nat |}]) s.

Definition finishRecording (s : RRvideo) : RRvideo :=
  browser_close_call (set_state closed s).

(** The loop of [getConsoleMsg] over the messages of one console event. *)
Fixpoint getConsoleMsg (msg : list ConsoleMessage) (s : RRvideo) : RRvideo :=
  match msg with
  | [] => s
  | m :: rest =>
      let s :=
        if is_uncaught_error m then
          call_cb EmptyString (Some (RawText (msg_text m)))
            (set_processError None (finishRecording s))
        else s in
      getConsoleMsg rest s
  end.

(** The two branches of the interval callback for one recorder. *)
Definition capture (shot : Screenshot) (r : Recorder) : Recorder :=
  {| rec_selector := rec_selector r; rec_command := rec_command r;
     rec_args := rec_args r; rec_outputPath := rec_outputPath r;
     rec_timer := rec_timer r;
     rec_screenshots := S (rec_screenshots r);
     rec_written :=
       match shot with
       | ShotOk buffer => rec_written r ++ [buffer]
       | ShotFails => rec_written r      (* catch: ignore *)
       end;
     rec_stdin_end := rec_stdin_end r |}.

Definition stop (end_stdin : bool) (r : Recorder) : Recorder :=
  {| rec_selector := rec_selector r; rec_command := rec_command r;
     rec_args := rec_args r; rec_outputPath := rec_outputPath r;
     rec_timer := false;                 (* clearInterval(timer) *)
     rec_screenshots := rec_screenshots r;
     rec_written := rec_written r;
     rec_stdin_end :=
       if end_stdin then S (rec_stdin_end r) else rec_stdin_end r |}.

Definition no_error (s : RRvideo) : bool :=
  match processError s with
  | None => true
  | Some _ => false
  end.

Definition tick (i : nat) (shot : Screenshot) (s : RRvideo) : RRvideo :=
  match recorders s !! i with
  | None => s
  | Some r =>
      if negb (rec_timer r) then s        (* a cleared interval never fires *)
      else if bool_decide (state s = recording) && no_error s
      then set_recorders (<[i := capture shot r]> (recorders s)) s
      else
        set_recorders
          (<[i := stop (bool_decide (state s = closed) && no_error s) r]>
             (recorders s)) s
  end.

Definition on_close (i : nat) (s : RRvideo) : RRvideo :=
  match recorders s !! i with
  | None => s
  | Some r =>
      if no_error s then call_cb (rec_outputPath r) None s else s
  end.

(** The handlers of ["error"] on the process and on its [stdin] have the
    same body. *)
Definition on_error (i : nat) (error : Error) (s : RRvideo) : RRvideo :=
  match recorders s !! i with
  | None => s
  | Some r =>
      if no_error s
      then call_cb (rec_outputPath r) (Some (ErrorObject error))
             (set_processError (Some error) s)
      else s
  end.

Definition step (s : RRvideo) (sig : Signal) : RRvideo :=
  match sig with
  | Init o => init o s
  | OnReplayStart found => startRecording found s
  | OnReplayFinish => finishRecording s
  | Console msg => getConsoleMsg msg s
  | Tick i shot => tick i shot s
  | FfmpegClose i => on_close i s
  | FfmpegError i e => on_error i e s
  | StdinError i e => on_error i e s
  end.

(** The instance after a sequence of signals. *)
Definition run (sigs : list Signal) (s : RRvideo) : RRvideo :=
  fold_left step sigs s.

(** All the states the instance goes through, the first one included. *)
Fixpoint trace (sigs : list Signal) (s : RRvideo) : list RRvideo :=
  match sigs with
  | [] => [s]
  | sig :: rest => s :: trace rest (step s sig)
  end.
End Orchestrator.

(** ** Inputs for the examples *)

(** A POSIX reading of Node's [path] for the concrete runs below. *)
#[export] Instance posix : NodePath :=
  {| cwd := "/home/user";
     path_isAbsolute p := String.prefix "/" p;
     path_resolve from to := from +:+ "/" +:+ to |}.

Definition options_of_input (file : string) : Options :=
  {| opt_fps := None; opt_headless := None; opt_input := file;
     opt_cb := None; opt_output := None; opt_rrwebPlayer := None |}.

Definition sample_options : Options := options_of_input "events.json".

(** Everything given, and falsy. *)
Definition falsy_options : Options :=
  {| opt_fps := Some (Num 0); opt_headless := Some false;
     opt_input := "events.json"; opt_cb := None;
     opt_output := Some EmptyString; opt_rrwebPlayer := None |}.

(** [{ rrwebPlayer: { width: 0, height: 720 } }] *)
Definition zero_width_options : Options :=
  {| opt_fps := None; opt_headless := None; opt_input := "events.json";
     opt_cb := None; opt_output := None;
     opt_rrwebPlayer :=
       Some {| width := Some (Num 0); height := Some (Num 720);
               autoPlay := None; showController := None;
               startDelayTime := None |} |}.

(** [{ rrwebPlayer: { width: 1280, height: 720 } }] *)
Definition wide_options : Options :=
  {| opt_fps := None; opt_headless := None; opt_input := "events.json";
     opt_cb := None; opt_output := None;
     opt_rrwebPlayer :=
       Some {| width := Some (Num 1280); height := Some (Num 720);
               autoPlay := None; showController := None;
               startDelayTime := None |} |}.

(** The recorder of a run with the default configuration, just started. *)
Definition sample_recorder : Recorder :=
  {| rec_selector := ".replayer-wrapper";
     rec_command := "ffmpeg";
     rec_args :=
       ["-framerate"; "15"; "-f"; "image2pipe"; "-i"; "-"; "-y";
        "rrvideo-output.mp4"];
     rec_outputPath := "/home/user/rrvideo-output.mp4";
     rec_timer := true;
     rec_screenshots := 0%nat;
     rec_written := [];
     rec_stdin_end := 0%nat |}.

(** A run that has started to record, and the same run after the replay
    has finished. *)
Definition sample_recording : RRvideo :=
  run [Init InitDone; OnReplayStart true] (transformToVideo sample_options).

Definition sample_finished : RRvideo :=
  run [OnReplayFinish] sample_recording.

Definition spawn_error : Error := {| message := "spawn ffmpeg ENOENT" |}.
Definition pipe_error : Error := {| message := "write EPIPE" |}.

Definition sample_error_text : string :=
  "Replayer Uncaught Error: Cannot read property 'x' of undefined".

Definition sample_console_error : ConsoleMessage :=
  {| msg_type := "error"; msg_text := sample_error_text |}.

(** The text that follows the marker in a console message. *)
Definition after_marker (text : string) : string :=
  String.substring (String.length marker)
    (String.length text - String.length marker) text.

(** ** Vocabulary of the properties *)

#[export] Instance number_eq_dec : EqDecision number.
Proof. solve_decision. Defined.
#[export] Instance Error_eq_dec : EqDecision Error.
Proof. solve_decision. Defined.
#[export] Instance Failure_eq_dec : EqDecision Failure.
Proof. solve_decision. Defined.
#[export] Instance Promise_eq_dec : EqDecision Promise.
Proof. solve_decision. Defined.

(** The outcome the first call of the callback gives a fresh promise. *)
Definition first_outcome (calls : list (string * option Failure)) : Promise :=
  match calls with
  | [] => Pending
  | (file, error) :: _ => promise_cb file error Pending
  end.

(** Number of times a promise changes along a sequence of observations. *)
Fixpoint changes (ps : list Promise) : nat :=
  match ps with
  | p :: (q :: _) as rest => (if decide (p = q) then 0 else 1) + changes rest
  | _ => 0
  end.

Definition is_start (sig : Signal) : bool :=
  match sig with
  | OnReplayStart _ => true
  | _ => false
  end.

(** Signals whose handler assigns [closed]. *)
Definition closes (sig : Signal) : bool :=
  match sig with
  | OnReplayFinish => true
  | Console msg => existsb is_uncaught_error msg
  | _ => false
  end.

(** No start signal is delivered after a closing one. *)
Fixpoint start_before_close (sigs : list Signal) : bool :=
  match sigs with
  | [] => true
  | sig :: rest =>
      (if closes sig then forallb (fun x => negb (is_start x)) rest else true)
      && start_before_close rest
  end.

(** The call of the callback that [getConsoleMsg] makes for a message. *)
Definition console_call (m : ConsoleMessage) : string * option Failure :=
  (EmptyString, Some (RawText (msg_text m))).

(** A lifecycle state is not behind another one. *)
Definition not_behind (a b : Lifecycle) : Prop := (rank a <= rank b)%nat.

(** [n] more screenshot attempts on a recorder, none of them written. *)
Definition missed (n : nat) (r : Recorder) : Recorder :=
  Nat.iter n (capture ShotFails) r.

(** The argument list the encoder is to be started with. *)
Definition has_ffmpeg_arguments (c : RRvideoConfig) (r : Recorder) : Prop :=
  rec_command r = "ffmpeg"
  /\ rec_args r =
     ["-framerate"; toString (fps c); "-f"; "image2pipe"; "-i"; "-"; "-y"; output c].

(** A property is configured with a truthy number. *)
Definition configured_truthy (a : option number) : Prop :=
  exists n, a = Some n /\ truthy_number n = true.

(** The promise holds what the first call of the callback gave it. *)
Definition latched (s : RRvideo) : Prop :=
  cb (config s) = PromiseCb /\ promise s = first_outcome (cb_calls s).

(** ** The end of a script element *)

(** ASCII lower case. *)
Definition lower (c : ascii) : ascii :=
  let n := nat_of_ascii c in
  if (65 <=? n)%nat && (n <=? 90)%nat then ascii_of_nat (n + 32) else c.

(** [p] is a prefix of [s] up to the case of ASCII letters. *)
Fixpoint prefix_ci (p s : string) : bool :=
  match p, s with
  | EmptyString, _ => true
  | String a p', String b s' => Ascii.eqb (lower a) (lower b) && prefix_ci p' s'
  | String _ _, EmptyString => false
  end.

(** The characters after which an HTML tokenizer takes a tag name as
    complete: tab, line feed, form feed, space, ["/"] and [">"]. *)
Definition ends_tag_name (c : ascii) : bool :=
  let n := nat_of_ascii c in
  (n =? 9)%nat || (n =? 10)%nat || (n =? 12)%nat || (n =? 32)%nat
  || Ascii.eqb c "/" || Ascii.eqb c ">".

(** Where the content of a script element ends for an HTML tokenizer: at
    ["</script"], in any letter case, followed by a character that ends
    the tag name.  This is the behaviour of the browser, not of the
    module; the regular expression of line 35 knows one of these
    spellings, ["</script>"]. *)
Definition script_end_tag_at (s : string) : bool :=
  prefix_ci "</script" s
  && match String.get 8 s with
     | Some c => ends_tag_name c
     | None => false
     end.

Fixpoint has_script_end_tag (s : string) : bool :=
  script_end_tag_at s ||
  match s with
  | EmptyString => false
  | String _ s' => has_script_end_tag s'
  end.

(** What [JSON.stringify] prints for a trace of one event with one string
    property, for a [text] without characters that JSON escapes. *)
Definition dq : string := String (ascii_of_nat 34) EmptyString.
Definition json_of_text (text : string) : string :=
  "[{" +:+ dq +:+ "text" +:+ dq +:+ ":" +:+ dq +:+ text +:+ dq +:+ "}]".

(** ** Vocabulary of the further properties *)

(** Lines 52-67 of the page script: how long the page waits before it
    calls [onReplayStart] and [play]; [None] when [start] calls [fn] at
    once. *)
Definition playbackDelay (userConfig : PlayerOptions) : option number :=
  if startsImmediately userConfig then None else Some (startDelay userConfig).

(** Reading a decimal numeral. *)
Definition parse_int (s : string) : option Z :=
  option_map Z.of_int (NilZero.int_of_string s).

(** Signals that do not reach a call of the callback. *)
Definition quiet (sig : Signal) : bool :=
  match sig with
  | Init InitDone | OnReplayStart _ | OnReplayFinish | Tick _ _ => true
  | Console msg => negb (existsb is_uncaught_error msg)
  | _ => false
  end.

(** Calls of [browser.close] that a signal makes. *)
Definition closings (sig : Signal) : nat :=
  match sig with
  | OnReplayFinish => 1
  | Console msg => length (List.filter is_uncaught_error msg)
  | _ => 0
  end.

(** Encoder processes that a signal spawns. *)
Definition spawns (sig : Signal) : nat :=
  match sig with
  | OnReplayStart true => 1
  | _ => 0
  end.

(** What a rejection reason looks like. *)
Definition reason_ok (f : Failure) : Prop :=
  match f with
  | ErrorObject _ => True
  | RawText text => String.prefix marker text = true
  end.

Section Vocabulary.
Context `{node : NodePath}.

(** What holds of every recorder of a run. *)
Definition recorder_ok (c : RRvideoConfig) (r : Recorder) : Prop :=
  (rec_stdin_end r <= 1)%nat
  /\ (rec_timer r = true -> rec_stdin_end r = 0%nat)
  /\ (length (rec_written r) <= rec_screenshots r)%nat
  /\ rec_outputPath r = outputPath c
  /\ rec_selector r = wrapperSelector (rrwebPlayer c).

(** What holds of every call of the callback in a run. *)
Definition call_ok (c : RRvideoConfig) (call : string * option Failure) : Prop :=
  match snd call with
  | None => fst call = outputPath c
  | Some f => truthy_failure f = true /\ reason_ok f
  end.
End Vocabulary.

(** ** The interval callback with its [await]

    [tick] takes the callback of [setInterval] in one transition.  The
    callback is [async]: it reads the guard (line 179), starts the
    screenshot and suspends (line 181); when the screenshot settles it
    writes the buffer (line 184) or ignores the rejection, without reading
    the guard again.  Other handlers, and further ticks, can run in
    between.  The definitions below split the callback at the [await]. *)

(** The instance, and the recorders of the screenshots that were started
    and have not settled yet, the latest first. *)
Record Fine : Type := {
  inst : RRvideo;
  pending : list nat;
}.

Inductive FineSignal : Type :=
| Whole (sig : Signal)                       (* handled as in [step] *)
| TickBegin (i : nat)                        (* the interval of recorder [i] fires *)
| ShotSettled (i : nat) (shot : Screenshot). (* an awaited screenshot settles *)

(** [wrapperEl.screenshot(...)] has been called. *)
Definition started (r : Recorder) : Recorder :=
  {| rec_selector := rec_selector r; rec_command := rec_command r;
     rec_args := rec_args r; rec_outputPath := rec_outputPath r;
     rec_timer := rec_timer r;
     rec_screenshots := S (rec_screenshots r);
     rec_written := rec_written r;
     rec_stdin_end := rec_stdin_end r |}.

(** [ffmpegProcess.stdin.write(buffer)] *)
Definition wrote (buffer : Buffer) (r : Recorder) : Recorder :=
  {| rec_selector := rec_selector r; rec_command := rec_command r;
     rec_args := rec_args r; rec_outputPath := rec_outputPath r;
     rec_timer := rec_timer r;
     rec_screenshots := rec_screenshots r;
     rec_written := rec_written r ++ [buffer];
     rec_stdin_end := rec_stdin_end r |}.

(** Take one pending screenshot of recorder [i], if there is one. *)
Fixpoint take_pending (i : nat) (p : list nat) : option (list nat) :=
  match p with
  | [] => None
  | j :: rest =>
      if (i =? j)%nat then Some rest
      else option_map (cons j) (take_pending i rest)
  end.

(** The callback up to its [await], or its whole [else] branch. *)
Definition tick_begin (i : nat) (f : Fine) : Fine :=
  let s := inst f in
  match recorders s !! i with
  | None => f
  | Some r =>
      if negb (rec_timer r) then f
      else if bool_decide (state s = recording) && no_error s
      then {| inst := set_recorders (<[i := started r]> (recorders s)) s;
              pending := i :: pending f |}
      else {| inst :=
                set_recorders
                  (<[i := stop (bool_decide (state s = closed) && no_error s) r]>
                     (recorders s)) s;
              pending := pending f |}
  end.

(** The callback after its [await]. *)
Definition shot_settled (i : nat) (shot : Screenshot) (f : Fine) : Fine :=
  match take_pending i (pending f) with
  | None => f
  | Some rest =>
      match shot, recorders (inst f) !! i with
      | ShotOk buffer, Some r =>
          {| inst :=
               set_recorders (<[i := wrote buffer r]> (recorders (inst f))) (inst f);
             pending := rest |}
      | _, _ => {| inst := inst f; pending := rest |}   (* catch: ignore *)
      end
  end.

Section FineSteps.
Context `{node : NodePath}.

Definition fine_step (f : Fine) (sig : FineSignal) : Fine :=
  match sig with
  | Whole sig => {| inst := step (inst f) sig; pending := pending f |}
  | TickBegin i => tick_begin i f
  | ShotSettled i shot => shot_settled i shot f
  end.

Definition fine_run (sigs : list FineSignal) (f : Fine) : Fine :=
  fold_left fine_step sigs f.
End FineSteps.

(** Ticks and settling screenshots. *)
Definition capturing (sig : FineSignal) : bool :=
  match sig with
  | TickBegin _ | ShotSettled _ _ => true
  | Whole _ => false
  end.

(** Settling screenshots. *)
Definition settling (sig : FineSignal) : bool :=
  match sig with
  | ShotSettled _ _ => true
  | _ => false
  end.

(** Screenshots that settle by a rejection. *)
Definition rejecting (sig : FineSignal) : bool :=
  match sig with
  | ShotSettled _ ShotFails => true
  | _ => false
  end.

(** What decides the behaviour of a recorder's timer and handlers. *)
Definition controls (r : Recorder) : bool * nat * string :=
  (rec_timer r, rec_stdin_end r, rec_outputPath r).

(** An instance in which an encoder error has been latched while
    recording. *)
Definition sample_failed : RRvideo :=
  run [FfmpegError 0 spawn_error] sample_recording.

(** * Properties *)

(** ** Strings *)

Lemma prefix_cons a p b s :
  String.prefix (String a p) (String b s) =
  if ascii_dec a b then String.prefix p s else false.
Proof. reflexivity. Qed.

Lemma prefix_split p : forall s,
  String.prefix p s = true -> exists rest, s = p +:+ rest.
Proof.
  induction p as [|a p IH]; intros s H.
  - exists s. reflexivity.
  - destruct s as [|b s]; [discriminate H|].
    rewrite prefix_cons in H. destruct (ascii_dec a b) as [->|]; [|discriminate H].
    destruct (IH _ H) as [rest ->]. exists rest. reflexivity.
Qed.

Lemma index_cons pat b s :
  String.index 0 pat (String b s) =
  if String.prefix pat (String b s) then Some O
  else match String.index 0 pat s with
       | Some n => Some (S n)
       | None => None
       end.
Proof. reflexivity. Qed.

Lemma indexOf_zero_prefix s pat :
  indexOf s pat = 0 <-> String.prefix pat s = true.
Proof.
  unfold indexOf. destruct s as [|b s].
  - destruct pat; simpl; split; intros H; try reflexivity; discriminate H.
  - rewrite index_cons. destruct (String.prefix pat (String b s)).
    + split; reflexivity.
    + split; [|discriminate].
      destruct (String.index 0 pat s); intros H; lia.
Qed.

Lemma replace_from_skip pat rep p : forall s,
  replace_from pat rep (String.length p) (p +:+ s) = replace_from pat rep O s.
Proof.
  induction p as [|a p IH]; intros s; simpl.
  - destruct s; reflexivity.
  - apply IH.
Qed.

Lemma prefix_append p s : String.prefix p (p +:+ s) = true.
Proof.
  induction p as [|a p IH]; [destruct s; reflexivity|].
  change (String a p +:+ s) with (String a (p +:+ s)).
  rewrite prefix_cons. destruct (ascii_dec a a); [exact IH|congruence].
Qed.

Lemma replace_hit s :
  replace script_close script_close_escaped (script_close +:+ s) =
  script_close_escaped +:+ replace script_close script_close_escaped s.
Proof.
  unfold replace.
  change (script_close +:+ s) with (String "<" ("/script>" +:+ s)).
  cbn [replace_from].
  change (String "<" ("/script>" +:+ s)) with (script_close +:+ s).
  rewrite prefix_append.
  exact (f_equal _ (replace_from_skip _ _ "/script>" s)).
Qed.

Lemma replace_miss c s :
  String.prefix script_close (String c s) = false ->
  replace script_close script_close_escaped (String c s) =
  String c (replace script_close script_close_escaped s).
Proof. intros H. unfold replace. cbn [replace_from]. rewrite H. reflexivity. Qed.

Lemma append_length a b :
  String.length (a +:+ b) = (String.length a + String.length b)%nat.
Proof.
  induction a as [|c a IH]; [reflexivity|].
  change (S (String.length (a +:+ b)) = S (String.length a + String.length b)).
  rewrite IH. reflexivity.
Qed.

Lemma replace_Replaced s :
  Replaced script_close script_close_escaped s
    (replace script_close script_close_escaped s).
Proof.
  remember (String.length s) as n eqn:Hn.
  revert s Hn. induction (lt_wf n) as [n _ IH]. intros s ->.
  destruct s as [|c s]; [constructor|].
  destruct (String.prefix script_close (String c s)) eqn:E.
  - destruct (prefix_split _ _ E) as [rest Hrest]. rewrite Hrest, replace_hit.
    constructor. eapply IH; [|reflexivity].
    rewrite Hrest, append_length. simpl. lia.
  - rewrite (replace_miss _ _ E). constructor; [exact E|].
    eapply IH; [|reflexivity]. simpl. lia.
Qed.

Lemma occurs_cons pat c s :
  occurs pat (String c s) = String.prefix pat (String c s) || occurs pat s.
Proof. reflexivity. Qed.

Lemma prefix_nil_r a p : String.prefix (String a p) EmptyString = false.
Proof. reflexivity. Qed.

Lemma prefix_nil_l s : String.prefix EmptyString s = true.
Proof. destruct s; reflexivity. Qed.

Lemma occurs_lt_cons d q :
  occurs "<" (String d q) = false -> d <> "<"%char /\ occurs "<" q = false.
Proof.
  rewrite occurs_cons, prefix_cons. intros H.
  apply orb_false_iff in H as [H1 H2]. split; [|exact H2].
  intros ->. destruct (ascii_dec "<" "<"); [|congruence].
  rewrite prefix_nil_l in H1. discriminate H1.
Qed.

(** A prefix without ["<"] seen after the replacement was there before:
    everything the replacement inserts starts with ["<"]. *)
Lemma replace_prefix_back q :
  occurs "<" q = false ->
  forall s,
    String.prefix q (replace script_close script_close_escaped s) = true ->
    String.prefix q s = true.
Proof.
  induction q as [|d q IH]; intros Hq s H.
  - apply prefix_nil_l.
  - apply occurs_lt_cons in Hq as [Hd Hq].
    destruct s as [|c s]; [discriminate H|].
    destruct (String.prefix script_close (String c s)) eqn:E.
    + destruct (prefix_split _ _ E) as [rest Hrest].
      rewrite Hrest, replace_hit in H.
      change (script_close_escaped +:+ replace script_close script_close_escaped rest)
        with (String "<" ("\/script>" +:+ replace script_close script_close_escaped rest)) in H.
      rewrite prefix_cons in H. destruct (ascii_dec d "<"); [|discriminate H].
      contradiction.
    + rewrite (replace_miss _ _ E), prefix_cons in H. rewrite prefix_cons.
      destruct (ascii_dec d c); [|discriminate H].
      apply IH; assumption.
Qed.

Lemma occurs_after_escaped t :
  occurs script_close (script_close_escaped +:+ t) = occurs script_close t.
Proof.
  change (script_close_escaped +:+ t)
    with (String "<" (String "\" (String "/" (String "s" (String "c"
           (String "r" (String "i" (String "p" (String "t" (String ">" t)))))))))).
  unfold script_close. rewrite !occurs_cons, !prefix_cons.
  repeat (destruct (ascii_dec _ _) as [Heq|_]; [try discriminate Heq|]);
    reflexivity.
Qed.

Lemma replace_removes s :
  occurs script_close (replace script_close script_close_escaped s) = false.
Proof.
  remember (String.length s) as n eqn:Hn.
  revert s Hn. induction (lt_wf n) as [n _ IH]. intros s ->.
  destruct s as [|c s]; [reflexivity|].
  destruct (String.prefix script_close (String c s)) eqn:E.
  - destruct (prefix_split _ _ E) as [rest Hrest].
    rewrite Hrest, replace_hit, occurs_after_escaped.
    eapply IH; [|reflexivity]. rewrite Hrest, append_length. simpl. lia.
  - rewrite (replace_miss _ _ E), occurs_cons.
    apply orb_false_iff. split.
    + destruct (String.prefix script_close
                  (String c (replace script_close script_close_escaped s))) eqn:P;
        [|reflexivity].
      unfold script_close in P, E. rewrite prefix_cons in P, E.
      destruct (ascii_dec "<" c); [|discriminate P].
      apply replace_prefix_back in P; [congruence|reflexivity].
    + eapply IH; [|reflexivity]. simpl. lia.
Qed.

(** Without an occurrence the text is left as it is. *)
Lemma replace_id s :
  occurs script_close s = false ->
  replace script_close script_close_escaped s = s.
Proof.
  induction s as [|c s IH]; intros H; [reflexivity|].
  rewrite occurs_cons in H. apply orb_false_iff in H as [H1 H2].
  rewrite (replace_miss _ _ H1), (IH H2). reflexivity.
Qed.

(** *** Occurrences across the seams of a concatenation *)

Lemma append_assoc_r a b c : (a +:+ b) +:+ c = a +:+ (b +:+ c).
Proof.
  induction a as [|x a IH]; [reflexivity|].
  change (String x ((a +:+ b) +:+ c) = String x (a +:+ (b +:+ c))).
  rewrite IH. reflexivity.
Qed.

Lemma last_char_append a b :
  last_char (a +:+ b) =
  match last_char b with
  | Some d => Some d
  | None => last_char a
  end.
Proof.
  induction a as [|x a IH].
  { change (EmptyString +:+ b) with b. destruct (last_char b); reflexivity. }
  change (last_char (String x a +:+ b))
    with (match last_char (a +:+ b) with Some d => Some d | None => Some x end).
  rewrite IH. cbn [last_char]. destruct (last_char b); reflexivity.
Qed.

Lemma last_char_snoc h c :
  last_char h = Some c -> exists h', h = h' +:+ String c EmptyString.
Proof.
  induction h as [|x h IH]; [discriminate|]. cbn [last_char].
  destruct (last_char h) as [d|] eqn:E.
  - intros Hd. destruct (IH Hd) as [h' ->]. exists (String x h'). reflexivity.
  - intros [= ->]. destruct h; [|cbn in E; destruct (last_char h); discriminate E].
    exists EmptyString. reflexivity.
Qed.

Lemma absent_cons c a p :
  occurs (String c EmptyString) (String a p) = false ->
  a <> c /\ occurs (String c EmptyString) p = false.
Proof.
  rewrite occurs_cons, prefix_cons. intros H.
  apply orb_false_iff in H as [H1 H2]. split; [|exact H2].
  intros ->. destruct (ascii_dec c c); [|congruence].
  rewrite prefix_nil_l in H1. discriminate H1.
Qed.

(** A text that continues with a character foreign to the pattern has the
    pattern as a prefix only if the text before that character has. *)
Lemma prefix_boundary c b p :
  occurs (String c EmptyString) p = false ->
  forall e, String.prefix p (e +:+ String c b) = String.prefix p e.
Proof.
  induction p as [|a p IH]; intros Hc e.
  - rewrite !prefix_nil_l. reflexivity.
  - apply absent_cons in Hc as [Hac Hc]. destruct e as [|d e].
    + change (EmptyString +:+ String c b) with (String c b).
      rewrite prefix_cons, prefix_nil_r.
      destruct (ascii_dec a c); [contradiction|reflexivity].
    + change (String d e +:+ String c b) with (String d (e +:+ String c b)).
      rewrite !prefix_cons. destruct (ascii_dec a d); [apply IH, Hc|reflexivity].
Qed.

Lemma occurs_boundary c b a p :
  occurs (String c EmptyString) (String a p) = false ->
  forall e,
    occurs (String a p) (e +:+ String c b) =
    occurs (String a p) e || occurs (String a p) (String c b).
Proof.
  intros Hc. induction e as [|d e IH]; [reflexivity|].
  change (String d e +:+ String c b) with (String d (e +:+ String c b)).
  rewrite !occurs_cons, IH.
  change (String d (e +:+ String c b)) with (String d e +:+ String c b).
  rewrite (prefix_boundary c b _ Hc (String d e)), occurs_cons.
  rewrite !orb_assoc. reflexivity.
Qed.

Lemma occurs_foreign_head c b a p :
  occurs (String c EmptyString) (String a p) = false ->
  occurs (String a p) (String c b) = occurs (String a p) b.
Proof.
  intros Hc. apply absent_cons in Hc as [Hac _].
  rewrite occurs_cons, prefix_cons.
  destruct (ascii_dec a c); [contradiction|reflexivity].
Qed.

(** Between a text that ends with a character foreign to the pattern and
    one that starts with such a character, the occurrences are those of
    the three parts. *)
Lemma occurs_join c1 c2 a p h e b :
  occurs (String c1 EmptyString) (String a p) = false ->
  occurs (String c2 EmptyString) (String a p) = false ->
  last_char h = Some c1 ->
  occurs (String a p) (h +:+ e +:+ String c2 b) =
  occurs (String a p) h || occurs (String a p) e || occurs (String a p) b.
Proof.
  intros H1 H2 Hh. destruct (last_char_snoc _ _ Hh) as [h' ->].
  rewrite append_assoc_r.
  change (String c1 EmptyString +:+ e +:+ String c2 b)
    with (String c1 (e +:+ String c2 b)).
  rewrite !(occurs_boundary c1 _ _ _ H1), !(occurs_foreign_head c1 _ _ _ H1).
  rewrite (occurs_boundary c2 _ _ _ H2), (occurs_foreign_head c2 _ _ _ H2).
  cbn [occurs]. rewrite prefix_nil_r. cbn [orb].
  rewrite orb_false_r, !orb_assoc. reflexivity.
Qed.

Lemma html_head_last raw style : last_char (html_head raw style) = Some " "%char.
Proof. unfold html_head. rewrite !last_char_append. reflexivity. Qed.

Example replace_two_closers :
  replace script_close script_close_escaped "x</script>y</script>"
  = "x<\/script>y<\/script>".
Proof. reflexivity. Qed.

(** The pattern of line 35 has no [i] flag: other spellings of the closing
    tag pass through unchanged. *)
Example replace_is_case_sensitive :
  replace script_close script_close_escaped "</SCRIPT>" = "</SCRIPT>".
Proof. reflexivity. Qed.

(** What the replacement of lines 34-37 achieves.  For every trace,
    whatever [JSON.stringify] makes of it, the
    document returned by [getHtml] is the fixed head of the template, the
    serialized events in which every occurrence of ["</script>"], from
    left to right, has been replaced by ["<\/script>"], and the rest of
    the template.  No occurrence of ["</script>"] is left in the embedded
    events, and none straddles their two ends: the document contains
    ["</script>"] only where the template around the events does. *)
Theorem getHtml_escapes_script_close :
  forall (E P : Type) (rrwebRaw rrwebStyle : string)
         (stringify : list E -> string) (stringify_config : P -> string)
         (events : list E) (config : P),
    let json := stringify events in
    let embedded := replace script_close script_close_escaped json in
    let after := html_mid +:+ stringify_config config +:+ html_tail in
    getHtml rrwebRaw rrwebStyle stringify stringify_config events config
    = html_head rrwebRaw rrwebStyle +:+ embedded +:+ after
    /\ Replaced script_close script_close_escaped json embedded
    /\ occurs script_close embedded = false
    /\ occurs script_close
         (getHtml rrwebRaw rrwebStyle stringify stringify_config events config)
       = occurs script_close (html_head rrwebRaw rrwebStyle)
         || occurs script_close after.
Proof.
  intros E P raw style stringify stringify_config events config json embedded after.
  split; [reflexivity|]. split; [apply replace_Replaced|].
  split; [apply replace_removes|].
  change (getHtml raw style stringify stringify_config events config)
    with (html_head raw style +:+ embedded +:+ after).
  assert (exists rest, after = String ";" rest) as [rest Hrest]
    by (eexists; reflexivity).
  rewrite Hrest.
  rewrite (occurs_join " " ";" "<" "/script>" _ _ _ eq_refl eq_refl
             (html_head_last raw style)).
  unfold embedded. rewrite replace_removes, orb_false_r.
  unfold script_close.
  rewrite (occurs_foreign_head ";" rest "<" "/script>" eq_refl). reflexivity.
Qed.

(** C10.  The code at events whose text spells the closing tag in upper
    case, with a space, or with a slash before [">"]: the regular
    expression of line 35 matches none of them, the serialized events are
    embedded unchanged, and the embedded text contains an end tag of the
    script element; only the spelling ["</script>"] is escaped. *)
Lemma other_spellings_of_closing_tag_reach_the_page :
  let embed (text : string) :=
    embedded_events (fun _ : list unit => json_of_text text) [tt] in
  (embed "</SCRIPT>" = json_of_text "</SCRIPT>"
   /\ has_script_end_tag (embed "</SCRIPT>") = true)
  /\ (embed "</script >" = json_of_text "</script >"
      /\ has_script_end_tag (embed "</script >") = true)
  /\ (embed "</script/>" = json_of_text "</script/>"
      /\ has_script_end_tag (embed "</script/>") = true)
  /\ (embed "</script>" = json_of_text "<\/script>"
      /\ has_script_end_tag (embed "</script>") = false).
Proof. repeat split; reflexivity. Qed.

(** ** Configuration *)

Lemma effective_config_headless o : headless (effective_config o) = true.
Proof.
  unfold effective_config, or_default. simpl.
  destruct (o ≫= opt_headless) as [[|]|]; reflexivity.
Qed.

(** ** Handlers: what they leave alone *)

Ltac handlers :=
  unfold step, init, startRecording, finishRecording, tick, on_close, on_error,
    call_cb, puppeteer_launch, browser_close_call, page_query, throw,
    set_recorders, set_processError, set_state, no_error in *.

Ltac split_ifs :=
  repeat match goal with
    | |- context [match ?x with _ => _ end] => destruct x eqn:?; simpl in *
    end.

Section Facts.
Context `{node : NodePath}.

Lemma getConsoleMsg_config msg : forall s,
  config (getConsoleMsg msg s) = config s.
Proof.
  induction msg as [|m msg IH]; intros s; simpl; [reflexivity|].
  rewrite IH. destruct (is_uncaught_error m); reflexivity.
Qed.

Lemma step_config s sig : config (step s sig) = config s.
Proof.
  destruct sig; try apply getConsoleMsg_config; handlers; simpl;
    split_ifs; reflexivity.
Qed.

Lemma run_app a b s : run (a ++ b) s = run b (run a s).
Proof. unfold run. apply fold_left_app. Qed.

Lemma run_cons sig sigs s : run (sig :: sigs) s = run sigs (step s sig).
Proof. reflexivity. Qed.

Lemma run_config sigs : forall s, config (run sigs s) = config s.
Proof.
  induction sigs as [|sig sigs IH]; intros s; [reflexivity|].
  rewrite run_cons, IH. apply step_config.
Qed.

(** *** The promise as a latch *)

Lemma promise_cb_settles file error : promise_cb file error Pending <> Pending.
Proof.
  unfold promise_cb. destruct error as [f|]; [destruct (truthy_failure f)|];
    discriminate.
Qed.

Lemma promise_cb_settled file error p :
  p <> Pending -> promise_cb file error p = p.
Proof.
  intros H. unfold promise_cb, reject, resolve.
  destruct p; [contradiction| |];
    destruct error as [f|]; try destruct (truthy_failure f); reflexivity.
Qed.

Lemma call_cb_settled file error s :
  promise s <> Pending -> promise (call_cb file error s) = promise s.
Proof.
  intros H. unfold call_cb; simpl. destruct (cb (config s)); [reflexivity|].
  apply promise_cb_settled, H.
Qed.

Lemma call_cb_latched file error s :
  latched s -> latched (call_cb file error s).
Proof.
  intros [Hcb Hp]. split; [exact Hcb|].
  unfold call_cb; simpl. rewrite Hcb, Hp.
  destruct (cb_calls s) as [|[f0 e0] calls]; [reflexivity|].
  simpl. apply promise_cb_settled, promise_cb_settles.
Qed.

Lemma getConsoleMsg_latched msg : forall s,
  latched s -> latched (getConsoleMsg msg s).
Proof.
  induction msg as [|m msg IH]; intros s H; simpl; [exact H|].
  apply IH. destruct (is_uncaught_error m); [|exact H].
  apply call_cb_latched. exact H.
Qed.

Lemma step_latched s sig : latched s -> latched (step s sig).
Proof.
  intros H. destruct sig as [[e|e|]|found| |msg|i shot|i|i e|i e];
    unfold step, init.
  - apply call_cb_latched, H.
  - apply call_cb_latched, H.
  - exact H.
  - unfold startRecording. destruct (negb found); exact H.
  - exact H.
  - apply getConsoleMsg_latched, H.
  - unfold tick. destruct (recorders s !! i) as [r|]; [|exact H].
    destruct (negb (rec_timer r)); [exact H|].
    destruct (bool_decide (state s = recording) && no_error s); exact H.
  - unfold on_close. destruct (recorders s !! i) as [r|]; [|exact H].
    destruct (no_error s); [apply call_cb_latched|]; exact H.
  - unfold on_error. destruct (recorders s !! i) as [r|]; [|exact H].
    destruct (no_error s); [apply call_cb_latched|]; exact H.
  - unfold on_error. destruct (recorders s !! i) as [r|]; [|exact H].
    destruct (no_error s); [apply call_cb_latched|]; exact H.
Qed.

Lemma run_latched sigs : forall s, latched s -> latched (run sigs s).
Proof.
  induction sigs as [|sig sigs IH]; intros s H; [exact H|].
  rewrite run_cons. apply IH, step_latched, H.
Qed.

Lemma transformToVideo_latched o : latched (transformToVideo o).
Proof. split; reflexivity. Qed.

Lemma getConsoleMsg_settled msg : forall s,
  promise s <> Pending -> promise (getConsoleMsg msg s) = promise s.
Proof.
  induction msg as [|m msg IH]; intros s H; simpl; [reflexivity|].
  destruct (is_uncaught_error m); [|apply IH, H].
  rewrite IH; rewrite call_cb_settled; solve [reflexivity | exact H].
Qed.

Lemma step_settled s sig :
  promise s <> Pending -> promise (step s sig) = promise s.
Proof.
  intros H. destruct sig as [[e|e|]|found| |msg|i shot|i|i e|i e];
    unfold step, init.
  - apply (call_cb_settled _ _ (puppeteer_launch s)), H.
  - apply (call_cb_settled _ _ (puppeteer_launch s)), H.
  - reflexivity.
  - unfold startRecording. destruct (negb found); reflexivity.
  - reflexivity.
  - apply getConsoleMsg_settled, H.
  - unfold tick. destruct (recorders s !! i) as [r|]; [|reflexivity].
    destruct (negb (rec_timer r)); [reflexivity|].
    destruct (bool_decide (state s = recording) && no_error s); reflexivity.
  - unfold on_close. destruct (recorders s !! i) as [r|]; [|reflexivity].
    destruct (no_error s); [apply call_cb_settled, H|reflexivity].
  - unfold on_error. destruct (recorders s !! i) as [r|]; [|reflexivity].
    destruct (no_error s); [|reflexivity].
    apply (call_cb_settled _ _ (set_processError _ s)), H.
  - unfold on_error. destruct (recorders s !! i) as [r|]; [|reflexivity].
    destruct (no_error s); [|reflexivity].
    apply (call_cb_settled _ _ (set_processError _ s)), H.
Qed.

Lemma run_settled sigs : forall s,
  promise s <> Pending -> promise (run sigs s) = promise s.
Proof.
  induction sigs as [|sig sigs IH]; intros s H; [reflexivity|].
  rewrite run_cons, IH; rewrite step_settled; solve [reflexivity | exact H].
Qed.

Lemma trace_head sigs s : exists rest, trace sigs s = s :: rest.
Proof. destruct sigs; simpl; eauto. Qed.

Lemma changes_cons p q ps :
  changes (p :: q :: ps) =
  ((if decide (p = q) then 0 else 1) + changes (q :: ps))%nat.
Proof. reflexivity. Qed.

Lemma changes_trace sigs : forall s,
  changes (map promise (trace sigs s)) =
  if decide (promise s = Pending)
  then (if decide (promise (run sigs s) = Pending) then 0 else 1)%nat
  else 0%nat.
Proof.
  induction sigs as [|sig sigs IH]; intros s.
  - simpl. repeat case_decide; reflexivity.
  - rewrite run_cons. cbn [trace map].
    destruct (trace_head sigs (step s sig)) as [rest Hrest].
    specialize (IH (step s sig)). rewrite Hrest in *.
    cbn [map] in *. rewrite changes_cons, IH. clear IH Hrest.
    destruct (decide (promise s = Pending)) as [Hs|Hs].
    + destruct (decide (promise (step s sig) = Pending)) as [Hs1|Hs1].
      * rewrite Hs, Hs1. case_decide; [|congruence]. reflexivity.
      * rewrite (run_settled _ _ Hs1). rewrite Hs.
        repeat case_decide; try congruence; reflexivity.
    + rewrite (step_settled _ _ Hs).
      repeat case_decide; try congruence; reflexivity.
Qed.

(** *** [getConsoleMsg] *)

Lemma is_uncaught_error_prefix m :
  is_uncaught_error m = true ->
  msg_type m = "error" /\ String.prefix marker (msg_text m) = true.
Proof.
  unfold is_uncaught_error. intros Hm.
  apply andb_true_iff in Hm as [Ht Hi]. split.
  - apply bool_decide_eq_true in Ht. exact Ht.
  - apply indexOf_zero_prefix. apply Z.eqb_eq, Hi.
Qed.

Lemma is_uncaught_error_truthy m :
  is_uncaught_error m = true -> truthy_string (msg_text m) = true.
Proof.
  intros Hm. apply is_uncaught_error_prefix in Hm as [_ Hp].
  destruct (prefix_split _ _ Hp) as [rest ->]. reflexivity.
Qed.

Lemma getConsoleMsg_fields msg : forall s,
  let hits := List.filter is_uncaught_error msg in
  let s' := getConsoleMsg msg s in
  state s' = (if existsb is_uncaught_error msg then closed else state s)
  /\ processError s' =
     (if existsb is_uncaught_error msg then None else processError s)
  /\ browser_close s' = (browser_close s + length hits)%nat
  /\ cb_calls s' = (cb_calls s ++ map console_call hits)%list
  /\ recorders s' = recorders s.
Proof.
  induction msg as [|m msg IH]; intros s; cbn zeta.
  - cbn. rewrite Nat.add_0_r, app_nil_r. repeat split; reflexivity.
  - cbn [getConsoleMsg List.filter existsb].
    destruct (is_uncaught_error m) eqn:Hm; cbn [orb].
    + destruct (IH (call_cb EmptyString (Some (RawText (msg_text m)))
                      (set_processError None (finishRecording s))))
        as (Hst & Hpe & Hbc & Hcalls & Hrec).
      rewrite Hst, Hpe, Hbc, Hcalls, Hrec. cbn.
      rewrite <- app_assoc. repeat split; try reflexivity; try lia.
      * destruct (existsb is_uncaught_error msg); reflexivity.
      * destruct (existsb is_uncaught_error msg); reflexivity.
    + apply IH.
Qed.

Lemma getConsoleMsg_rejects msg : forall s m,
  cb (config s) = PromiseCb -> promise s = Pending ->
  List.find is_uncaught_error msg = Some m ->
  promise (getConsoleMsg msg s) = Rejected (RawText (msg_text m)).
Proof.
  induction msg as [|m0 msg IH]; intros s m Hcb Hp Hfind; [discriminate Hfind|].
  cbn [getConsoleMsg List.find] in *.
  destruct (is_uncaught_error m0) eqn:Hm.
  - injection Hfind as <-.
    assert (promise (call_cb EmptyString (Some (RawText (msg_text m0)))
                       (set_processError None (finishRecording s)))
            = Rejected (RawText (msg_text m0))) as Hrej.
    { unfold call_cb; cbn. rewrite Hcb, Hp. cbn.
      rewrite (is_uncaught_error_truthy _ Hm). reflexivity. }
    rewrite getConsoleMsg_settled; rewrite Hrej; [reflexivity|discriminate].
  - apply IH; assumption.
Qed.

Lemma existsb_find {A} (f : A -> bool) l :
  existsb f l = true -> exists x, List.find f l = Some x /\ f x = true.
Proof.
  induction l as [|a l IH]; [discriminate|]. cbn.
  destruct (f a) eqn:E; [eauto|]. exact IH.
Qed.

Lemma existsb_filter {A} (f : A -> bool) l :
  existsb f l = true -> List.filter f l <> [].
Proof.
  induction l as [|a l IH]; [discriminate|]. cbn.
  destruct (f a); [discriminate|]. exact IH.
Qed.

Lemma latched_pending s :
  latched s -> (promise s = Pending <-> cb_calls s = []).
Proof.
  intros [_ Hp]. rewrite Hp. destruct (cb_calls s) as [|[file error] calls].
  - split; reflexivity.
  - split; [|discriminate]. intros Habs.
    exfalso. exact (promise_cb_settles _ _ Habs).
Qed.

Lemma on_error_twice i j e1 e2 s :
  is_Some (recorders s !! i) ->
  on_error j e2 (on_error i e1 s) = on_error i e1 s.
Proof.
  intros [r Hr]. unfold on_error at 2 3. rewrite Hr.
  destruct (no_error s) eqn:Hs.
  - unfold on_error. destruct (recorders _ !! j); reflexivity.
  - unfold on_error. rewrite Hs. destruct (recorders s !! j); reflexivity.
Qed.

Lemma tick_fields i shot s :
  state (tick i shot s) = state s
  /\ processError (tick i shot s) = processError s
  /\ promise (tick i shot s) = promise s
  /\ cb_calls (tick i shot s) = cb_calls s
  /\ uncaught (tick i shot s) = uncaught s
  /\ browser_close (tick i shot s) = browser_close s.
Proof.
  unfold tick. destruct (recorders s !! i) as [r|]; [|repeat split].
  destruct (negb (rec_timer r)); [repeat split|].
  destruct (bool_decide (state s = recording) && no_error s); repeat split.
Qed.

Lemma getConsoleMsg_quiet msg : forall s,
  existsb is_uncaught_error msg = false -> getConsoleMsg msg s = s.
Proof.
  induction msg as [|m msg IH]; intros s Hq; [reflexivity|].
  cbn [existsb getConsoleMsg] in *. apply orb_false_iff in Hq as [-> Hq].
  apply IH, Hq.
Qed.

Lemma call_cb_not_pending file error s :
  cb (config s) = PromiseCb -> promise (call_cb file error s) <> Pending.
Proof.
  intros Hcb. unfold call_cb; cbn. rewrite Hcb.
  destruct (decide (promise s = Pending)) as [->|Hs].
  - apply promise_cb_settles.
  - rewrite (promise_cb_settled _ _ _ Hs). exact Hs.
Qed.

(** An error is latched only together with a call of the callback. *)
Lemma step_error_settled s sig :
  cb (config s) = PromiseCb ->
  (processError s <> None -> promise s <> Pending) ->
  processError (step s sig) <> None -> promise (step s sig) <> Pending.
Proof.
  intros Hcb Hs.
  destruct sig as [[e|e|]|found| |msg|i shot|i|i e|i e]; unfold step, init.
  - intros _. apply (call_cb_not_pending _ _ (puppeteer_launch s)), Hcb.
  - intros _. apply (call_cb_not_pending _ _ (puppeteer_launch s)), Hcb.
  - exact Hs.
  - unfold startRecording. destruct (negb found); exact Hs.
  - exact Hs.
  - destruct (existsb is_uncaught_error msg) eqn:Hq.
    + destruct (getConsoleMsg_fields msg s) as (_ & -> & _). rewrite Hq.
      congruence.
    + rewrite (getConsoleMsg_quiet _ _ Hq). exact Hs.
  - destruct (tick_fields i shot s) as (_ & -> & -> & _). exact Hs.
  - unfold on_close. destruct (recorders s !! i); [|exact Hs].
    destruct (no_error s); [|exact Hs].
    intros _. apply call_cb_not_pending, Hcb.
  - unfold on_error. destruct (recorders s !! i); [|exact Hs].
    destruct (no_error s); [|exact Hs].
    intros _. apply (call_cb_not_pending _ _ (set_processError _ s)), Hcb.
  - unfold on_error. destruct (recorders s !! i); [|exact Hs].
    destruct (no_error s); [|exact Hs].
    intros _. apply (call_cb_not_pending _ _ (set_processError _ s)), Hcb.
Qed.

Lemma run_error_settled sigs : forall s,
  cb (config s) = PromiseCb ->
  (processError s <> None -> promise s <> Pending) ->
  processError (run sigs s) <> None -> promise (run sigs s) <> Pending.
Proof.
  induction sigs as [|sig sigs IH]; intros s Hcb Hs; [exact Hs|].
  rewrite run_cons. apply IH.
  - rewrite step_config. exact Hcb.
  - apply step_error_settled; assumption.
Qed.

(** ** The terminal result *)

(** C1.  In every run started by [transformToVideo], whatever signals
    arrive and in whatever order: the promise holds the outcome of the
    first call of the callback; it changes exactly once along the run if
    the callback is called at all, and never otherwise; once it is settled
    no later signal changes it; an encoder error delivered right after
    another encoder error (process then stream, or stream then process)
    leaves the whole instance as it was; a close of the encoder after a
    console error does not touch the rejected promise; and while the
    promise is pending, each of a setup failure, an encoder exit, an
    encoder or stream error and a console error settles it with its own
    outcome. *)
Theorem terminal_result_single_fire :
  forall (o : Options) (sigs : list Signal),
    let s := run sigs (transformToVideo o) in
    promise s = first_outcome (cb_calls s)
    /\ changes (map promise (trace sigs (transformToVideo o)))
       = match cb_calls s with [] => 0%nat | _ :: _ => 1%nat end
    /\ (forall later, promise s <> Pending -> promise (run later s) = promise s)
    /\ (forall i j e1 e2,
          is_Some (recorders s !! i) ->
          step (step s (FfmpegError i e1)) (StdinError j e2)
          = step s (FfmpegError i e1)
          /\ step (step s (StdinError i e1)) (FfmpegError j e2)
             = step s (StdinError i e1))
    /\ (forall msg i,
          existsb is_uncaught_error msg = true ->
          promise (step s (Console msg)) <> Pending
          /\ promise (step (step s (Console msg)) (FfmpegClose i))
             = promise (step s (Console msg)))
    /\ (promise s = Pending ->
        (forall e, promise (step s (Init (LaunchFails e))) = Rejected (ErrorObject e))
        /\ (forall e, promise (step s (Init (LoadFails e))) = Rejected (ErrorObject e))
        /\ (forall i r e,
              recorders s !! i = Some r ->
              promise (step s (FfmpegClose i)) = Fulfilled (rec_outputPath r)
              /\ promise (step s (FfmpegError i e)) = Rejected (ErrorObject e)
              /\ promise (step s (StdinError i e)) = Rejected (ErrorObject e))
        /\ (forall msg m,
              List.find is_uncaught_error msg = Some m ->
              promise (step s (Console msg)) = Rejected (RawText (msg_text m)))).
Proof.
  intros o sigs s.
  assert (latched s) as Hl by apply run_latched, transformToVideo_latched.
  split; [apply Hl|]. split; [|split; [|split; [|split]]].
  - rewrite changes_trace. fold s.
    pose proof (latched_pending s Hl) as Hp.
    change (promise (transformToVideo o)) with Pending.
    case_decide; [|congruence].
    destruct (cb_calls s) as [|c calls]; case_decide; try reflexivity.
    + exfalso. tauto.
    + exfalso. destruct Hp as [Hp _]. specialize (Hp ltac:(assumption)).
      discriminate Hp.
  - intros later Hs. apply run_settled, Hs.
  - intros i j e1 e2 Hi. split; apply on_error_twice, Hi.
  - intros msg i Hmsg.
    assert (promise (step s (Console msg)) <> Pending) as Hne.
    { intros Habs.
      apply (latched_pending _ (step_latched _ (Console msg) Hl)) in Habs.
      cbn [step] in Habs.
      destruct (getConsoleMsg_fields msg s) as (_ & _ & _ & Hcalls & _).
      rewrite Hcalls in Habs. apply app_eq_nil in Habs as [_ Habs].
      apply map_eq_nil in Habs. exact (existsb_filter _ _ Hmsg Habs). }
    split; [exact Hne|]. apply step_settled, Hne.
  - intros Hp. destruct Hl as [Hcb _].
    assert (processError s = None) as He.
    { destruct (processError s) eqn:He; [|reflexivity]. exfalso.
      apply (run_error_settled sigs (transformToVideo o)); try assumption.
      - reflexivity.
      - intros Habs. exfalso. apply Habs. reflexivity.
      - fold s. rewrite He. discriminate. }
    split; [|split; [|split]].
    + intros e. cbn. rewrite Hcb, Hp. reflexivity.
    + intros e. cbn. rewrite Hcb, Hp. reflexivity.
    + intros i r e Hr. unfold step, on_close, on_error, no_error.
      rewrite Hr, He. cbn. rewrite Hcb, Hp. repeat split.
    + intros msg m Hfind. cbn [step]. apply getConsoleMsg_rejects; assumption.
Qed.

Lemma substring_all r : String.substring 0 (String.length r) r = r.
Proof. induction r as [|c r IH]; [reflexivity|]. simpl. rewrite IH. reflexivity. Qed.

Lemma substring_skip p m r :
  String.substring (String.length p) m (p +:+ r) = String.substring 0 m r.
Proof. induction p as [|c p IH]; [reflexivity|]. exact IH. Qed.

Lemma after_marker_append rest : after_marker (marker +:+ rest) = rest.
Proof.
  unfold after_marker. rewrite append_length, substring_skip.
  replace (String.length marker + String.length rest - String.length marker)%nat
    with (String.length rest) by lia.
  apply substring_all.
Qed.

(** C2, amended.  A console event with a message of type ["error"] whose
    text starts with the marker, received in any lifecycle state, sets the
    state to [closed], calls [browser.close], and calls the callback with
    the whole text of the message, marker included, as a plain string; a
    pending promise is rejected with that string and keeps it whatever
    arrives later, a settled promise is left as it is. *)
Theorem console_error_closes_and_rejects :
  forall (s : RRvideo) (msg : list ConsoleMessage) (m : ConsoleMessage),
    cb (config s) = PromiseCb ->
    List.find is_uncaught_error msg = Some m ->
    let s' := step s (Console msg) in
    state s' = closed
    /\ (browser_close s < browser_close s')%nat
    /\ msg_text m = marker +:+ after_marker (msg_text m)
    /\ In (EmptyString, Some (RawText (msg_text m))) (cb_calls s')
    /\ (promise s = Pending ->
        forall later, promise (run later s') = Rejected (RawText (msg_text m)))
    /\ (promise s <> Pending -> promise s' = promise s).
Proof.
  intros s msg m Hcb Hfind s'.
  destruct (getConsoleMsg_fields msg s) as (Hst & _ & Hbc & Hcalls & _).
  pose proof (find_some _ _ Hfind) as [Hin Hm].
  assert (existsb is_uncaught_error msg = true) as Hex
    by (apply existsb_exists; eauto).
  assert (In m (List.filter is_uncaught_error msg)) as Hhit
    by (apply filter_In; auto).
  rewrite Hex in Hst. repeat split.
  - exact Hst.
  - unfold s'; cbn [step]. rewrite Hbc.
    destruct (List.filter is_uncaught_error msg); [destruct Hhit|]. simpl. lia.
  - apply is_uncaught_error_prefix in Hm as [_ Hp].
    destruct (prefix_split _ _ Hp) as [rest Hrest].
    rewrite Hrest at 2. rewrite after_marker_append. exact Hrest.
  - unfold s'; cbn [step]. rewrite Hcalls. apply in_or_app. right.
    apply (in_map console_call) in Hhit. exact Hhit.
  - intros Hp later.
    assert (promise s' = Rejected (RawText (msg_text m))) as Hrej
      by (apply getConsoleMsg_rejects; assumption).
    rewrite run_settled; rewrite Hrej; [reflexivity|discriminate].
  - intros Hp. apply step_settled, Hp.
Qed.

(** ** The lifecycle state *)

Lemma step_state s sig :
  state (step s sig) =
  if is_start sig then recording
  else if closes sig then closed
  else state s.
Proof.
  destruct sig as [[e|e|]|found| |msg|i shot|i|i e|i e]; cbn [is_start closes];
    try reflexivity.
  - unfold step, startRecording. destruct (negb found); reflexivity.
  - cbn [step]. apply getConsoleMsg_fields.
  - unfold step, tick. destruct (recorders s !! i) as [r|]; [|reflexivity].
    destruct (negb (rec_timer r)); [reflexivity|].
    destruct (bool_decide (state s = recording) && no_error s); reflexivity.
  - unfold step, on_close. destruct (recorders s !! i) as [r|]; [|reflexivity].
    destruct (no_error s); reflexivity.
  - unfold step, on_error. destruct (recorders s !! i) as [r|]; [|reflexivity].
    destruct (no_error s); reflexivity.
  - unfold step, on_error. destruct (recorders s !! i) as [r|]; [|reflexivity].
    destruct (no_error s); reflexivity.
Qed.

Lemma trace_cons sig sigs s : trace (sig :: sigs) s = s :: trace sigs (step s sig).
Proof. reflexivity. Qed.

Lemma trace_left_idle sigs : forall s,
  state s <> idle -> Forall (fun x => x <> idle) (map state (trace sigs s)).
Proof.
  induction sigs as [|sig sigs IH]; intros s Hs.
  - repeat constructor. exact Hs.
  - rewrite trace_cons. constructor; [exact Hs|]. apply IH.
    rewrite step_state. destruct (is_start sig); [discriminate|].
    destruct (closes sig); [discriminate|exact Hs].
Qed.

Lemma trace_stays_closed sigs : forall s,
  state s = closed ->
  forallb (fun x => negb (is_start x)) sigs = true ->
  Forall (fun x => x = closed) (map state (trace sigs s)).
Proof.
  induction sigs as [|sig sigs IH]; intros s Hs Hno.
  - repeat constructor. exact Hs.
  - rewrite trace_cons. cbn [forallb] in Hno.
    apply andb_true_iff in Hno as [Hsig Hno].
    constructor; [exact Hs|]. apply IH; [|exact Hno].
    rewrite step_state. destruct (is_start sig); [discriminate Hsig|].
    destruct (closes sig); [reflexivity|exact Hs].
Qed.

Lemma trace_not_behind sigs s :
  (state s = closed -> forallb (fun x => negb (is_start x)) sigs = true) ->
  Forall (not_behind (state s)) (map state (trace sigs s)).
Proof.
  intros Hno. unfold not_behind. destruct (state s) eqn:Hs.
  - apply Forall_forall. intros x _. simpl. lia.
  - assert (state s <> idle) as Hne by congruence.
    eapply Forall_impl; [apply (trace_left_idle sigs s Hne)|].
    intros [] Hx; simpl; [contradiction|lia|lia].
  - eapply Forall_impl; [apply (trace_stays_closed sigs s Hs (Hno eq_refl))|].
    intros x ->. simpl. lia.
Qed.

Lemma trace_sorted sigs : forall s,
  start_before_close sigs = true ->
  (state s = closed -> forallb (fun x => negb (is_start x)) sigs = true) ->
  StronglySorted not_behind (map state (trace sigs s)).
Proof.
  induction sigs as [|sig sigs IH]; intros s Hord Hno.
  - repeat constructor.
  - pose proof (trace_not_behind (sig :: sigs) s Hno) as Hall.
    rewrite trace_cons in *. cbn [map] in *.
    apply Forall_cons_iff in Hall as [_ Hall].
    constructor; [|exact Hall].
    cbn [start_before_close] in Hord. apply andb_true_iff in Hord as [Hsig Hord].
    apply IH; [exact Hord|].
    rewrite step_state. intros Hclosed.
    destruct (is_start sig) eqn:Hstart; [discriminate Hclosed|].
    destruct (closes sig); [exact Hsig|].
    specialize (Hno Hclosed). cbn [forallb] in Hno.
    apply andb_true_iff in Hno as [_ Hno]. exact Hno.
Qed.

(** C3, amended.  The state never returns to [idle], and a finish signal
    or console-error detection always leads to [closed]; the only signal
    that moves the state backwards is a start signal received in [closed],
    which sets it to [recording] again.  Hence, in every run in which no
    start signal is delivered after a finish signal or a console-error
    detection, the state only moves forward along idle, recording,
    closed. *)
Theorem lifecycle_forward_unless_restarted :
  forall (o : option Options) (sigs : list Signal),
    (start_before_close sigs = true ->
     StronglySorted not_behind (map state (trace sigs (new_RRvideo o))))
    /\ (forall s sig,
          (state (step s sig) = idle -> state s = idle)
          /\ (closes sig = true -> is_start sig = false /\ state (step s sig) = closed)
          /\ (~ not_behind (state s) (state (step s sig)) ->
              state s = closed /\ is_start sig = true
              /\ state (step s sig) = recording)).
Proof.
  intros o sigs. split.
  - intros Hord. apply trace_sorted; [exact Hord|]. discriminate.
  - intros s sig. rewrite step_state. unfold not_behind. repeat split.
    + destruct (is_start sig); [discriminate|].
      destruct (closes sig); [discriminate|tauto].
    + destruct sig; try discriminate; reflexivity.
    + destruct sig; try discriminate; cbn [is_start]; rewrite H; reflexivity.
    + destruct (is_start sig); [|destruct (closes sig)];
        destruct (state s); simpl in *; try reflexivity; exfalso; lia.
    + destruct (is_start sig); [reflexivity|].
      destruct (closes sig); destruct (state s); simpl in *; exfalso; lia.
    + destruct (is_start sig); [reflexivity|].
      destruct (closes sig); destruct (state s); simpl in *; exfalso; lia.
Qed.

(** ** The capture loop *)

Lemma tick_captures i shot s r :
  recorders s !! i = Some r -> rec_timer r = true ->
  state s = recording -> processError s = None ->
  tick i shot s = set_recorders (<[i := capture shot r]> (recorders s)) s.
Proof.
  intros Hr Ht Hs He. unfold tick, no_error. rewrite Hr, Ht, Hs, He.
  reflexivity.
Qed.

Lemma tick_stops i shot s r :
  recorders s !! i = Some r -> rec_timer r = true ->
  state s <> recording ->
  tick i shot s =
  set_recorders
    (<[i := stop (bool_decide (state s = closed) && no_error s) r]> (recorders s)) s.
Proof.
  intros Hr Ht Hs. unfold tick. rewrite Hr, Ht. cbn [negb].
  rewrite (bool_decide_eq_false_2 _ Hs). reflexivity.
Qed.

Lemma missed_S n r : missed (S n) r = capture ShotFails (missed n r).
Proof. reflexivity. Qed.

Lemma missed_fields n r :
  rec_timer (missed n r) = rec_timer r
  /\ rec_screenshots (missed n r) = (rec_screenshots r + n)%nat
  /\ rec_written (missed n r) = rec_written r
  /\ rec_stdin_end (missed n r) = rec_stdin_end r.
Proof.
  induction n as [|n (Ht & Hs & Hw & He)].
  - cbn. repeat split. lia.
  - rewrite missed_S. unfold capture at 1 2 3 4.
    cbn [rec_timer rec_screenshots rec_written rec_stdin_end].
    rewrite Ht, Hs, Hw, He. repeat split. lia.
Qed.

Lemma run_missed n : forall s i r,
  recorders s !! i = Some r -> rec_timer r = true ->
  state s = recording -> processError s = None ->
  run (repeat (Tick i ShotFails) n) s
  = set_recorders (<[i := missed n r]> (recorders s)) s.
Proof.
  induction n as [|n IH]; intros s i r Hr Ht Hs He.
  - cbn. rewrite (list_insert_id _ _ _ Hr). destruct s; reflexivity.
  - replace (S n) with (n + 1)%nat by lia.
    rewrite repeat_app, run_app, (IH s i r Hr Ht Hs He).
    change (repeat (Tick i ShotFails) 1) with [Tick i ShotFails].
    rewrite run_cons. cbn [run fold_left step].
    assert (i < length (recorders s))%nat as Hi by (eapply lookup_lt_Some, Hr).
    destruct (missed_fields n r) as (Ht' & _).
    rewrite (tick_captures i ShotFails _ (missed n r)).
    + cbn. rewrite list_insert_insert_eq, Nat.add_1_r. reflexivity.
    + cbn. apply list_lookup_insert_eq, Hi.
    + rewrite Ht'. exact Ht.
    + exact Hs.
    + exact He.
Qed.

(** C5.  Any number [n] of ticks whose screenshot fails, delivered while
    the state is [recording] and no error is latched, leave the run going:
    the state is still [recording], the promise, the calls of the callback
    and the errors thrown are what they were, the timer is still scheduled,
    nothing was written and the encoder input was not closed; each tick
    made exactly one screenshot attempt.  No tick at all, whatever its
    outcome, calls the callback or changes the state, the promise or the
    latched error. *)
Theorem capture_failures_do_not_end_run :
  forall (n : nat) (s : RRvideo) (i : nat) (r : Recorder),
    recorders s !! i = Some r -> rec_timer r = true ->
    state s = recording -> processError s = None ->
    let s' := run (repeat (Tick i ShotFails) n) s in
    (state s' = recording /\ processError s' = None
     /\ promise s' = promise s /\ cb_calls s' = cb_calls s
     /\ uncaught s' = uncaught s /\ browser_close s' = browser_close s)
    /\ (exists r',
          recorders s' !! i = Some r'
          /\ rec_timer r' = true
          /\ rec_screenshots r' = (rec_screenshots r + n)%nat
          /\ rec_written r' = rec_written r
          /\ rec_stdin_end r' = rec_stdin_end r)
    /\ (forall t j shot,
          state (step t (Tick j shot)) = state t
          /\ processError (step t (Tick j shot)) = processError t
          /\ promise (step t (Tick j shot)) = promise t
          /\ cb_calls (step t (Tick j shot)) = cb_calls t).
Proof.
  intros n s i r Hr Ht Hs He s'. unfold s'.
  rewrite (run_missed n s i r Hr Ht Hs He). split; [|split].
  - cbn. repeat split; assumption.
  - exists (missed n r). cbn.
    destruct (missed_fields n r) as (Ht' & Hs' & Hw' & He').
    rewrite Ht', Hs', Hw', He'. repeat split; try assumption.
    apply list_lookup_insert_eq. eapply lookup_lt_Some, Hr.
  - intros t j shot. cbn [step].
    destruct (tick_fields j shot t) as (H1 & H2 & H3 & H4 & _).
    repeat split; assumption.
Qed.

(** C6.  At a tick of a scheduled timer that finds the state different
    from [recording], the timer is cleared, so this is the last tick of
    that timer; the input of the encoder is closed, once, exactly when the
    state is [closed] and no error is latched; with an error latched it is
    not closed. No screenshot is taken and nothing is written. *)
Theorem tick_outside_recording_stops_timer :
  forall (s : RRvideo) (i : nat) (r : Recorder) (shot : Screenshot),
    recorders s !! i = Some r -> rec_timer r = true ->
    state s <> recording ->
    let s' := step s (Tick i shot) in
    exists r',
      recorders s' !! i = Some r'
      /\ rec_timer r' = false
      /\ (forall shot', step s' (Tick i shot') = s')
      /\ (state s = closed /\ processError s = None ->
          rec_stdin_end r' = S (rec_stdin_end r))
      /\ (~ (state s = closed /\ processError s = None) ->
          rec_stdin_end r' = rec_stdin_end r)
      /\ (processError s <> None -> rec_stdin_end r' = rec_stdin_end r)
      /\ rec_screenshots r' = rec_screenshots r
      /\ rec_written r' = rec_written r.
Proof.
  intros s i r shot Hr Ht Hs s'. unfold s'. cbn [step].
  rewrite (tick_stops i shot s r Hr Ht Hs).
  assert (i < length (recorders s))%nat as Hi by (eapply lookup_lt_Some, Hr).
  eexists. split; [cbn; apply list_lookup_insert_eq, Hi|].
  split; [reflexivity|]. split; [|split; [|split; [|split; [|split]]]].
  - intros shot'. unfold tick at 1. cbn [recorders set_recorders].
    rewrite (list_lookup_insert_eq _ _ _ Hi). reflexivity.
  - intros [Hc He]. cbn. unfold no_error. rewrite He.
    rewrite (bool_decide_eq_true_2 _ Hc). reflexivity.
  - intros Hn. cbn. unfold no_error.
    destruct (bool_decide (state s = closed)) eqn:Hc; [|reflexivity].
    apply bool_decide_eq_true in Hc.
    destruct (processError s); [reflexivity|]. exfalso. auto.
  - intros He. cbn. unfold no_error.
    destruct (processError s); [|contradiction].
    rewrite andb_false_r. reflexivity.
  - reflexivity.
  - reflexivity.
Qed.

(** ** Starting the recording *)

Lemma truthy_prop_configured a :
  truthy_prop truthy_number a = true <-> configured_truthy a.
Proof.
  unfold configured_truthy. destruct a as [n|]; simpl.
  - split; [eauto|]. intros (n' & Hn & Ht). congruence.
  - split; [discriminate|]. intros (n' & Hn & _). discriminate Hn.
Qed.

Lemma wrapperSelector_cases p :
  (wrapperSelector p = ".rr-player"
   /\ truthy_prop truthy_number (width p) && truthy_prop truthy_number (height p) = true)
  \/ (wrapperSelector p = ".replayer-wrapper"
      /\ truthy_prop truthy_number (width p) && truthy_prop truthy_number (height p) = false).
Proof.
  unfold wrapperSelector.
  destruct (truthy_prop truthy_number (width p) && truthy_prop truthy_number (height p));
    auto.
Qed.

(** C7, amended.  A start signal sets the state to [recording] and asks
    the page for exactly one region: [".rr-player"] if and only if both
    [width] and [height] are configured with a truthy value (a number
    other than [0] and [NaN]), and [".replayer-wrapper"] in every other
    case; when the element is found, that selector is the one the new
    recorder samples. *)
Theorem region_selected_on_start :
  forall (s : RRvideo) (found : bool),
    let p := rrwebPlayer (config s) in
    let s' := step s (OnReplayStart found) in
    state s' = recording
    /\ queried s' = (queried s ++ [wrapperSelector p])%list
    /\ (wrapperSelector p = ".rr-player" <->
        configured_truthy (width p) /\ configured_truthy (height p))
    /\ (wrapperSelector p = ".replayer-wrapper" <->
        ~ (configured_truthy (width p) /\ configured_truthy (height p)))
    /\ (found = true ->
        exists r, recorders s' = (recorders s ++ [r])%list
                  /\ rec_selector r = wrapperSelector p).
Proof.
  intros s found p s'. unfold s'. cbn [step]. unfold startRecording.
  split; [destruct found; reflexivity|].
  split; [destruct found; reflexivity|].
  rewrite <- !truthy_prop_configured, <- andb_true_iff.
  split; [|split].
  - destruct (wrapperSelector_cases p) as [[-> ->]|[-> ->]];
      split; intros Hx; solve [reflexivity | discriminate Hx].
  - destruct (wrapperSelector_cases p) as [[-> ->]|[-> ->]];
      split; intros Hx;
      solve [ reflexivity | discriminate Hx | intros Hy; discriminate Hy
            | exfalso; apply Hx; reflexivity ].
  - intros ->. cbn. eexists. split; reflexivity.
Qed.

Lemma step_recorders c s sig :
  config s = c ->
  Forall (has_ffmpeg_arguments c) (recorders s) ->
  Forall (has_ffmpeg_arguments c) (recorders (step s sig)).
Proof.
  intros Hc Hall.
  destruct sig as [[e|e|]|found| |msg|i shot|i|i e|i e]; unfold step, init;
    try exact Hall.
  - unfold startRecording. destruct found; cbn; [|exact Hall].
    apply Forall_app. split; [exact Hall|].
    repeat constructor. cbn. rewrite Hc. reflexivity.
  - destruct (getConsoleMsg_fields msg s) as (_ & _ & _ & _ & ->). exact Hall.
  - unfold tick. destruct (recorders s !! i) as [r|] eqn:Hr; [|exact Hall].
    assert (has_ffmpeg_arguments c r) as Hr'
      by (eapply Forall_lookup_1; eassumption).
    destruct (negb (rec_timer r)); [exact Hall|].
    destruct (bool_decide (state s = recording) && no_error s); cbn;
      apply Forall_insert; assumption.
  - unfold on_close. destruct (recorders s !! i); [|exact Hall].
    destruct (no_error s); exact Hall.
  - unfold on_error. destruct (recorders s !! i); [|exact Hall].
    destruct (no_error s); exact Hall.
  - unfold on_error. destruct (recorders s !! i); [|exact Hall].
    destruct (no_error s); exact Hall.
Qed.

Lemma run_recorders c sigs : forall s,
  config s = c ->
  Forall (has_ffmpeg_arguments c) (recorders s) ->
  Forall (has_ffmpeg_arguments c) (recorders (run sigs s)).
Proof.
  induction sigs as [|sig sigs IH]; intros s Hc Hall; [exact Hall|].
  rewrite run_cons. apply IH.
  - rewrite step_config. exact Hc.
  - apply step_recorders; assumption.
Qed.

(** C8.  Whatever the configuration, a start signal that finds the
    element spawns one process, ["ffmpeg"], with the arguments
    [-framerate <fps> -f image2pipe -i - -y <output>] in this order, where
    [<fps>] is the configured frame rate printed by [toString] and
    [<output>] the configured output path; no other signal spawns a
    process, and every process of a run was started with these
    arguments. *)
Theorem ffmpeg_argument_shape :
  forall (o : option Options) (sigs : list Signal),
    let c := effective_config o in
    let s := run sigs (new_RRvideo o) in
    Forall (has_ffmpeg_arguments c) (recorders s)
    /\ (exists r,
          recorders (step s (OnReplayStart true)) = (recorders s ++ [r])%list
          /\ rec_command r = "ffmpeg"
          /\ rec_args r =
             ["-framerate"; toString (fps c); "-f"; "image2pipe"; "-i"; "-";
              "-y"; output c])
    /\ (forall sig,
          is_start sig = false ->
          length (recorders (step s sig)) = length (recorders s)).
Proof.
  intros o sigs c s.
  assert (config s = c) as Hc by apply run_config.
  split; [|split].
  - apply run_recorders; [reflexivity|constructor].
  - cbn [step]. unfold startRecording. cbn. eexists. split; [reflexivity|].
    rewrite Hc. split; reflexivity.
  - intros sig Hsig.
    destruct sig as [[e|e|]|found| |msg|i shot|i|i e|i e]; try discriminate Hsig;
      unfold step, init; try reflexivity.
    + destruct (getConsoleMsg_fields msg s) as (_ & _ & _ & _ & ->). reflexivity.
    + unfold tick. destruct (recorders s !! i) as [r|]; [|reflexivity].
      destruct (negb (rec_timer r)); [reflexivity|].
      destruct (bool_decide (state s = recording) && no_error s); cbn;
        apply length_insert.
    + unfold on_close. destruct (recorders s !! i); [|reflexivity].
      destruct (no_error s); reflexivity.
    + unfold on_error. destruct (recorders s !! i); [|reflexivity].
      destruct (no_error s); reflexivity.
    + unfold on_error. destruct (recorders s !! i); [|reflexivity].
      destruct (no_error s); reflexivity.
Qed.

(** ** Defaults *)

Lemma getConsoleMsg_launched msg : forall s,
  launched (getConsoleMsg msg s) = launched s.
Proof.
  induction msg as [|m msg IH]; intros s; cbn [getConsoleMsg]; [reflexivity|].
  rewrite IH. destruct (is_uncaught_error m); reflexivity.
Qed.

Lemma step_launched s sig :
  launched (step s sig) = launched s
  \/ launched (step s sig) = (launched s ++ [headless (config s)])%list.
Proof.
  destruct sig as [[e|e|]|found| |msg|i shot|i|i e|i e]; unfold step, init;
    auto.
  - left. unfold startRecording. destruct (negb found); reflexivity.
  - left. apply getConsoleMsg_launched.
  - left. unfold tick. destruct (recorders s !! i) as [r|]; [|reflexivity].
    destruct (negb (rec_timer r)); [reflexivity|].
    destruct (bool_decide (state s = recording) && no_error s); reflexivity.
  - left. unfold on_close. destruct (recorders s !! i); [|reflexivity].
    destruct (no_error s); reflexivity.
  - left. unfold on_error. destruct (recorders s !! i); [|reflexivity].
    destruct (no_error s); reflexivity.
  - left. unfold on_error. destruct (recorders s !! i); [|reflexivity].
    destruct (no_error s); reflexivity.
Qed.

Lemma run_launched sigs : forall s,
  headless (config s) = true ->
  Forall (fun h => h = true) (launched s) ->
  Forall (fun h => h = true) (launched (run sigs s)).
Proof.
  induction sigs as [|sig sigs IH]; intros s Hh Hall; [exact Hall|].
  rewrite run_cons. apply IH; [rewrite step_config; exact Hh|].
  destruct (step_launched s sig) as [-> | ->]; [exact Hall|].
  apply Forall_app. split; [exact Hall|]. repeat constructor. exact Hh.
Qed.

(** C4.  An option given with a falsy value is replaced by the default:
    [headless: false] gives [true], a frame rate of [0] (or [NaN]) gives
    [15], an empty [output] gives ["rrvideo-output.mp4"], an empty [input]
    the (empty) default; callbacks and objects are never falsy.  So the effective
    [headless] is [true] for every argument of the constructor, and every
    [puppeteer.launch] of a run is headless. *)
Theorem falsy_options_replaced_by_defaults :
  forall (c : Options) (sigs : list Signal),
    let e := effective_config (Some c) in
    (opt_headless c = Some false -> headless e = true)
    /\ (forall n, opt_fps c = Some n -> truthy_number n = false -> fps e = Num 15)
    /\ (opt_fps c = Some (Num 0) -> fps e = Num 15)
    /\ (opt_output c = Some EmptyString -> output e = "rrvideo-output.mp4")
    /\ (forall o, headless (effective_config o) = true)
    /\ (forall o, Forall (fun h => h = true) (launched (run sigs (new_RRvideo o))))
    /\ Forall (fun h => h = true) (launched (run sigs (transformToVideo c)))
    /\ (opt_input c = EmptyString -> input e = input defaultConfig).
Proof.
  intros c sigs e. unfold e, effective_config, or_default. cbn.
  split; [intros ->; reflexivity|].
  split; [intros n -> ->; reflexivity|].
  split; [intros ->; reflexivity|].
  split; [intros ->; reflexivity|].
  split; [apply effective_config_headless|].
  split; [intros o|split; [|intros ->; reflexivity]];
    (apply run_launched; [apply effective_config_headless|constructor]).
Qed.

(** C9.  An option that is not provided takes its default: frame rate
    [15], [headless] [true], output ["rrvideo-output.mp4"]; in the page, a
    missing [startDelayTime] gives a delay of [1000] ms and a missing
    [autoPlay] gives [autoPlay: false] in the player props, with playback
    started through the delay timer. *)
Theorem absent_options_take_defaults :
  forall (c : Options) (p : PlayerOptions),
    let e := effective_config (Some c) in
    (opt_fps c = None -> fps e = Num 15)
    /\ (opt_headless c = None -> headless e = true)
    /\ (opt_output c = None -> output e = "rrvideo-output.mp4")
    /\ (opt_rrwebPlayer c = None -> rrwebPlayer e = no_player_options)
    /\ (startDelayTime p = None -> startDelay p = Num 1000)
    /\ (autoPlay p = None ->
        props_autoPlay (playerProps p) = false /\ startsImmediately p = false)
    /\ effective_config None = defaultConfig
    /\ (fps defaultConfig = Num 15 /\ headless defaultConfig = true
        /\ output defaultConfig = "rrvideo-output.mp4"
        /\ startDelay (rrwebPlayer defaultConfig) = Num 1000
        /\ props_autoPlay (playerProps (rrwebPlayer defaultConfig)) = false).
Proof.
  intros c p e. unfold e, effective_config, or_default, startDelay, playerProps,
    startsImmediately. cbn.
  repeat split; try (intros ->; reflexivity);
    match goal with H : autoPlay p = None |- _ => rewrite H end; reflexivity.
Qed.

End Facts.

(** * Concrete runs *)

Example sample_recording_recorders :
  recorders sample_recording = [sample_recorder]
  /\ state sample_recording = recording
  /\ launched sample_recording = [true].
Proof. repeat split; reflexivity. Qed.

(** A whole successful run: two frames, the finish signal, the tick that
    closes the encoder input, the exit of the encoder. *)
Example successful_run :
  let s := run [Tick 0 (ShotOk []); Tick 0 ShotFails; Tick 0 (ShotOk []);
                OnReplayFinish; Tick 0 ShotFails; FfmpegClose 0]
             sample_recording in
  promise s = Fulfilled "/home/user/rrvideo-output.mp4"
  /\ state s = closed
  /\ (rec_stdin_end <$> recorders s) = [1%nat]
  /\ (rec_screenshots <$> recorders s) = [3%nat]
  /\ (length <$> (rec_written <$> recorders s)) = [2%nat].
Proof. repeat split; reflexivity. Qed.

(** [getConsoleMsg] resets [processError], so the guard of the ["close"]
    handler lets the callback be called a second time after a console
    error; the promise is settled by the first call only. *)
Example callback_called_again_after_console_error :
  let s := run [Console [sample_console_error]; Tick 0 ShotFails; FfmpegClose 0]
             sample_recording in
  cb_calls s = [(EmptyString, Some (RawText sample_error_text));
                ("/home/user/rrvideo-output.mp4", None)]
  /\ promise s = Rejected (RawText sample_error_text).
Proof. split; reflexivity. Qed.

(** ** The theorems at concrete inputs *)

Lemma terminal_result_single_fire_witness :
  let s := run [Console [sample_console_error]] sample_recording in
  promise s = Rejected (RawText sample_error_text)
  /\ promise (run [Tick 0 ShotFails; FfmpegClose 0] s) = promise s
  /\ step (step sample_recording (FfmpegError 0 spawn_error)) (StdinError 0 pipe_error)
     = step sample_recording (FfmpegError 0 spawn_error)
  /\ promise (step (step sample_recording (Console [sample_console_error]))
                (FfmpegClose 0))
     = promise (step sample_recording (Console [sample_console_error])).
Proof.
  pose proof (terminal_result_single_fire sample_options
                [Init InitDone; OnReplayStart true; Console [sample_console_error]])
    as (H1 & _ & H3 & _).
  pose proof (terminal_result_single_fire sample_options
                [Init InitDone; OnReplayStart true])
    as (_ & _ & _ & H4 & H5 & _).
  split; [exact H1|]. split; [|split].
  - apply H3. discriminate.
  - apply H4. exists sample_recorder. reflexivity.
  - apply H5. reflexivity.
Defined.

Lemma console_error_closes_and_rejects_witness :
  let s := transformToVideo sample_options in
  let s' := step s (Console [sample_console_error]) in
  state s = idle
  /\ state s' = closed
  /\ browser_close s' = 1%nat
  /\ promise (run [OnReplayStart true; FfmpegClose 0] s')
     = Rejected (RawText sample_error_text).
Proof.
  pose proof (console_error_closes_and_rejects
                (transformToVideo sample_options) [sample_console_error]
                sample_console_error eq_refl eq_refl)
    as (H1 & _ & _ & _ & H5 & _).
  split; [reflexivity|]. split; [exact H1|]. split; [reflexivity|].
  apply H5. reflexivity.
Defined.

(** The payload of the rejection is the whole console text as a string:
    neither the text after the marker nor an error object carrying it. *)
Lemma console_error_payload_keeps_marker :
  let s' := step (transformToVideo sample_options) (Console [sample_console_error]) in
  promise s' = Rejected (RawText sample_error_text)
  /\ after_marker sample_error_text = " Cannot read property 'x' of undefined"
  /\ promise s' <> Rejected (RawText (after_marker sample_error_text))
  /\ promise s'
     <> Rejected (ErrorObject {| message := after_marker sample_error_text |}).
Proof. repeat split; discriminate. Qed.

(** A start signal after the finish signal takes the state from [closed]
    back to [recording]. *)
Lemma start_after_finish_reopens :
  map state (trace [OnReplayStart true; OnReplayFinish; OnReplayStart true]
               (transformToVideo sample_options))
  = [idle; recording; closed; recording]
  /\ map state (trace [Console [sample_console_error]; OnReplayStart true]
                  (transformToVideo sample_options))
     = [idle; closed; recording].
Proof. split; reflexivity. Qed.

Lemma lifecycle_forward_unless_restarted_witness :
  StronglySorted not_behind
    (map state
       (trace [Init InitDone; OnReplayStart true; Tick 0 (ShotOk []);
               OnReplayFinish; Tick 0 ShotFails; FfmpegClose 0]
          (new_RRvideo (Some sample_options))))
  /\ state (step sample_finished (OnReplayStart true)) = recording.
Proof.
  pose proof (lifecycle_forward_unless_restarted (Some sample_options)
                [Init InitDone; OnReplayStart true; Tick 0 (ShotOk []);
                 OnReplayFinish; Tick 0 ShotFails; FfmpegClose 0])
    as (H1 & H2).
  split; [apply H1; reflexivity|].
  apply (H2 sample_finished (OnReplayStart true)).
  unfold not_behind. vm_compute. lia.
Defined.

Lemma capture_failures_do_not_end_run_witness :
  let s' := run (repeat (Tick 0 ShotFails) 3) sample_recording in
  state s' = recording /\ promise s' = Pending /\ cb_calls s' = []
  /\ (rec_screenshots <$> recorders s') = [3%nat].
Proof.
  pose proof (capture_failures_do_not_end_run 3 sample_recording 0 sample_recorder
                eq_refl eq_refl eq_refl eq_refl)
    as ((H1 & _ & H3 & H4 & _) & _).
  split; [exact H1|]. split; [exact H3|]. split; [exact H4|]. reflexivity.
Defined.

Lemma tick_outside_recording_stops_timer_witness :
  let s' := step sample_finished (Tick 0 ShotFails) in
  state sample_finished = closed
  /\ recorders sample_finished !! 0%nat = Some sample_recorder
  /\ exists r', recorders s' !! 0%nat = Some r'
                /\ rec_timer r' = false /\ rec_stdin_end r' = 1%nat.
Proof.
  destruct (tick_outside_recording_stops_timer sample_finished 0 sample_recorder
              ShotFails eq_refl eq_refl ltac:(discriminate))
    as (r' & Hr & Ht & _ & Hend & _).
  split; [reflexivity|]. split; [reflexivity|].
  exists r'. split; [exact Hr|]. split; [exact Ht|].
  apply Hend. split; reflexivity.
Defined.

(** Both dimensions are configured, one of them as [0]: the region that
    is sampled is the default wrapper, not [".rr-player"]. *)
Lemma zero_width_selects_default_wrapper :
  let s := transformToVideo zero_width_options in
  width (rrwebPlayer (config s)) = Some (Num 0)
  /\ height (rrwebPlayer (config s)) = Some (Num 720)
  /\ queried (step s (OnReplayStart true)) = [".replayer-wrapper"]
  /\ wrapperSelector (rrwebPlayer (config s)) <> ".rr-player".
Proof. repeat split; discriminate. Qed.

Lemma region_selected_on_start_witness :
  let s' := step (transformToVideo wide_options) (OnReplayStart true) in
  queried s' = [".rr-player"]
  /\ (rec_selector <$> recorders s') = [".rr-player"]
  /\ queried (step (transformToVideo sample_options) (OnReplayStart true))
     = [".replayer-wrapper"].
Proof.
  pose proof (region_selected_on_start (transformToVideo wide_options) true)
    as (_ & H2 & _ & _ & H5).
  destruct (H5 eq_refl) as (r & Hr & Hsel).
  split; [exact H2|]. split; [|reflexivity].
  rewrite Hr. cbn [recorders transformToVideo new_RRvideo app fmap list_fmap].
  rewrite Hsel. reflexivity.
Defined.

Lemma ffmpeg_argument_shape_witness :
  let s := run [Init InitDone; OnReplayStart true] (new_RRvideo (Some sample_options)) in
  (rec_args <$> recorders s)
  = [["-framerate"; "15"; "-f"; "image2pipe"; "-i"; "-"; "-y"; "rrvideo-output.mp4"]]
  /\ length (recorders (step s OnReplayFinish)) = 1%nat.
Proof.
  pose proof (ffmpeg_argument_shape (Some sample_options)
                [Init InitDone; OnReplayStart true])
    as (_ & _ & H3).
  split; [reflexivity|]. rewrite (H3 OnReplayFinish eq_refl). reflexivity.
Defined.

Lemma falsy_options_replaced_by_defaults_witness :
  let e := effective_config (Some falsy_options) in
  headless e = true /\ fps e = Num 15 /\ output e = "rrvideo-output.mp4"
  /\ launched (run [Init InitDone] (transformToVideo falsy_options)) = [true].
Proof.
  pose proof (falsy_options_replaced_by_defaults falsy_options [Init InitDone])
    as (H1 & H2 & _ & H4 & _).
  split; [apply H1; reflexivity|].
  split; [apply (H2 (Num 0)); reflexivity|].
  split; [apply H4; reflexivity|reflexivity].
Defined.

Lemma absent_options_take_defaults_witness :
  let e := effective_config (Some sample_options) in
  fps e = Num 15 /\ headless e = true /\ output e = "rrvideo-output.mp4"
  /\ startDelay no_player_options = Num 1000
  /\ props_autoPlay (playerProps no_player_options) = false.
Proof.
  pose proof (absent_options_take_defaults sample_options no_player_options)
    as (H1 & H2 & H3 & _ & H5 & H6 & _).
  split; [apply H1; reflexivity|]. split; [apply H2; reflexivity|].
  split; [apply H3; reflexivity|]. split; [apply H5; reflexivity|].
  apply H6. reflexivity.
Defined.

(** * Further properties of the module *)

Section Further.
Context `{node : NodePath}.

(** ** What each signal does to the outside world *)

Lemma step_browser_close s sig :
  browser_close (step s sig) = (browser_close s + closings sig)%nat.
Proof.
  destruct sig as [[e|e|]|found| |msg|i shot|i|i e|i e]; unfold step, init;
    cbn [closings]; try (cbn; lia).
  - unfold startRecording. destruct (negb found); cbn; lia.
  - apply getConsoleMsg_fields.
  - destruct (tick_fields i shot s) as (_ & _ & _ & _ & _ & ->). lia.
  - unfold on_close. destruct (recorders s !! i); [|lia].
    destruct (no_error s); cbn; lia.
  - unfold on_error. destruct (recorders s !! i); [|lia].
    destruct (no_error s); cbn; lia.
  - unfold on_error. destruct (recorders s !! i); [|lia].
    destruct (no_error s); cbn; lia.
Qed.

Lemma step_spawns s sig :
  length (recorders (step s sig)) = (length (recorders s) + spawns sig)%nat.
Proof.
  destruct sig as [[e|e|]|found| |msg|i shot|i|i e|i e]; unfold step, init;
    cbn [spawns]; try (cbn; lia).
  - unfold startRecording. destruct found; cbn; [|lia].
    rewrite length_app. reflexivity.
  - destruct (getConsoleMsg_fields msg s) as (_ & _ & _ & _ & ->). lia.
  - unfold tick. destruct (recorders s !! i) as [r|]; [|lia].
    destruct (negb (rec_timer r)); [lia|].
    destruct (bool_decide (state s = recording) && no_error s); cbn;
      rewrite length_insert; lia.
  - unfold on_close. destruct (recorders s !! i); [|lia].
    destruct (no_error s); cbn; lia.
  - unfold on_error. destruct (recorders s !! i); [|lia].
    destruct (no_error s); cbn; lia.
  - unfold on_error. destruct (recorders s !! i); [|lia].
    destruct (no_error s); cbn; lia.
Qed.

(** X2.  [browser.close] is called once for every finish signal and once
    for every console message that matches the marker, and by nothing
    else: a failure of [init] after the launch, an encoder error or a
    stream error leave the browser open, and a finish signal followed by a
    console error closes it twice. *)
Theorem browser_closed_once_per_closing_signal :
  forall (sigs : list Signal) (s : RRvideo),
    browser_close (run sigs s)
    = (browser_close s + sum_list (closings <$> sigs))%nat.
Proof.
  induction sigs as [|sig sigs IH]; intros s.
  - cbn. lia.
  - rewrite run_cons, IH, step_browser_close. cbn. lia.
Qed.

(** X3.  [startRecording] has no guard against a second call: every start
    signal that finds the element spawns one more encoder with its own
    timer, and no other signal adds or removes one. *)
Theorem one_encoder_per_found_start :
  forall (sigs : list Signal) (s : RRvideo),
    length (recorders (run sigs s))
    = (length (recorders s) + sum_list (spawns <$> sigs))%nat.
Proof.
  induction sigs as [|sig sigs IH]; intros s.
  - cbn. lia.
  - rewrite run_cons, IH, step_spawns. cbn. lia.
Qed.

(** ** Invariants of the recorders *)

Lemma capture_ok c shot r : recorder_ok c r -> recorder_ok c (capture shot r).
Proof.
  intros (H1 & H2 & H3 & H4 & H5). unfold recorder_ok. cbn.
  repeat split; try assumption.
  destruct shot; [lia|]. rewrite length_app. cbn. lia.
Qed.

Lemma stop_ok c b r :
  rec_timer r = true -> recorder_ok c r -> recorder_ok c (stop b r).
Proof.
  intros Ht (H1 & H2 & H3 & H4 & H5). unfold recorder_ok. cbn.
  rewrite (H2 Ht). repeat split; try assumption; try discriminate.
  destruct b; lia.
Qed.

Lemma step_recorder_ok c s sig :
  config s = c ->
  Forall (recorder_ok c) (recorders s) ->
  Forall (recorder_ok c) (recorders (step s sig)).
Proof.
  intros Hc Hall.
  destruct sig as [[e|e|]|found| |msg|i shot|i|i e|i e]; unfold step, init;
    try exact Hall.
  - unfold startRecording. destruct found; cbn; [|exact Hall].
    apply Forall_app. split; [exact Hall|].
    repeat constructor; cbn; try rewrite Hc; try reflexivity; lia.
  - destruct (getConsoleMsg_fields msg s) as (_ & _ & _ & _ & ->). exact Hall.
  - unfold tick. destruct (recorders s !! i) as [r|] eqn:Hr; [|exact Hall].
    assert (recorder_ok c r) as Hr' by (eapply Forall_lookup_1; eassumption).
    destruct (rec_timer r) eqn:Ht; cbn [negb]; [|exact Hall].
    destruct (bool_decide (state s = recording) && no_error s); cbn;
      apply Forall_insert; try assumption.
    + apply capture_ok, Hr'.
    + apply stop_ok; assumption.
  - unfold on_close. destruct (recorders s !! i); [|exact Hall].
    destruct (no_error s); exact Hall.
  - unfold on_error. destruct (recorders s !! i); [|exact Hall].
    destruct (no_error s); exact Hall.
  - unfold on_error. destruct (recorders s !! i); [|exact Hall].
    destruct (no_error s); exact Hall.
Qed.

Lemma run_recorder_ok c sigs : forall s,
  config s = c ->
  Forall (recorder_ok c) (recorders s) ->
  Forall (recorder_ok c) (recorders (run sigs s)).
Proof.
  induction sigs as [|sig sigs IH]; intros s Hc Hall; [exact Hall|].
  rewrite run_cons. apply IH.
  - rewrite step_config. exact Hc.
  - apply step_recorder_ok; assumption.
Qed.

(** X4.  In every run, for every recorder: [stdin.end] has been called at
    most once, and not at all while the timer is still scheduled; every
    buffer written was preceded by a screenshot of its own; the output
    path reported for it is the one computed from the configuration, and
    the region it samples is the one the configuration selects. *)
Theorem recorders_stay_well_formed :
  forall (o : option Options) (sigs : list Signal),
    Forall (recorder_ok (effective_config o))
      (recorders (run sigs (new_RRvideo o))).
Proof.
  intros o sigs. apply run_recorder_ok; [reflexivity|constructor].
Qed.

Lemma step_not_closed s sig :
  closes sig = false ->
  state s <> closed ->
  Forall (fun r => rec_stdin_end r = 0%nat) (recorders s) ->
  state (step s sig) <> closed
  /\ Forall (fun r => rec_stdin_end r = 0%nat) (recorders (step s sig)).
Proof.
  intros Hsig Hs Hall. split.
  { rewrite step_state, Hsig. destruct (is_start sig); [discriminate|exact Hs]. }
  destruct sig as [[e|e|]|found| |msg|i shot|i|i e|i e]; unfold step, init;
    try exact Hall; try discriminate Hsig.
  - unfold startRecording. destruct found; cbn; [|exact Hall].
    apply Forall_app. split; [exact Hall|]. repeat constructor.
  - destruct (getConsoleMsg_fields msg s) as (_ & _ & _ & _ & ->). exact Hall.
  - unfold tick. destruct (recorders s !! i) as [r|] eqn:Hr; [|exact Hall].
    assert (rec_stdin_end r = 0%nat) as Hr'
      by (apply (Forall_lookup_1 _ _ _ _ Hall Hr)).
    destruct (negb (rec_timer r)); [exact Hall|].
    destruct (bool_decide (state s = recording) && no_error s); cbn;
      apply Forall_insert; try assumption.
    cbn. rewrite (bool_decide_eq_false_2 _ Hs). exact Hr'.
  - unfold on_close. destruct (recorders s !! i); [|exact Hall].
    destruct (no_error s); exact Hall.
  - unfold on_error. destruct (recorders s !! i); [|exact Hall].
    destruct (no_error s); exact Hall.
  - unfold on_error. destruct (recorders s !! i); [|exact Hall].
    destruct (no_error s); exact Hall.
Qed.

(** X5.  As long as neither a finish signal nor a matching console error
    has been delivered, the state is not [closed] and the input of no
    encoder has been closed, whatever else happened: ticks, failed
    screenshots, encoder errors, further start signals. *)
Theorem input_not_closed_before_a_closing_signal :
  forall (o : option Options) (sigs : list Signal),
    forallb (fun sig => negb (closes sig)) sigs = true ->
    let s := run sigs (new_RRvideo o) in
    state s <> closed
    /\ Forall (fun r => rec_stdin_end r = 0%nat) (recorders s).
Proof.
  intros o sigs Hsigs.
  assert (forall s,
            state s <> closed ->
            Forall (fun r => rec_stdin_end r = 0%nat) (recorders s) ->
            state (run sigs s) <> closed
            /\ Forall (fun r => rec_stdin_end r = 0%nat) (recorders (run sigs s)))
    as Hgen.
  { induction sigs as [|sig sigs IH]; intros s Hs Hall; [split; assumption|].
    cbn [forallb] in Hsigs. apply andb_true_iff in Hsigs as [Hsig Hsigs].
    apply negb_true_iff in Hsig.
    rewrite run_cons.
    destruct (step_not_closed s sig Hsig Hs Hall) as [Hs' Hall'].
    apply IH; assumption. }
  apply Hgen; [discriminate|constructor].
Qed.

(** ** Encoder errors and console errors *)

(** X6.  An encoder or stream error delivered while recording calls the
    callback with the output path and the error and latches the error,
    but it neither changes the lifecycle state nor closes the browser; the
    next tick of the timer clears the timer without taking a screenshot,
    writing, or closing the encoder input. *)
Theorem encoder_error_stops_capture_only :
  forall (s : RRvideo) (i : nat) (r : Recorder) (e : Error) (shot : Screenshot)
         (sig : Signal),
    sig = FfmpegError i e \/ sig = StdinError i e ->
    recorders s !! i = Some r -> rec_timer r = true ->
    state s = recording -> processError s = None ->
    let s1 := step s sig in
    let s2 := step s1 (Tick i shot) in
    cb_calls s1 = (cb_calls s ++ [(rec_outputPath r, Some (ErrorObject e))])%list
    /\ processError s2 = Some e
    /\ state s2 = recording
    /\ browser_close s2 = browser_close s
    /\ cb_calls s2 = cb_calls s1
    /\ recorders s2 !! i = Some (stop false r).
Proof.
  intros s i r e shot sig Hsig Hr Ht Hs He s1 s2.
  assert (s1 = call_cb (rec_outputPath r) (Some (ErrorObject e))
                 (set_processError (Some e) s)) as H1.
  { unfold s1. destruct Hsig as [-> | ->]; cbn [step];
      unfold on_error, no_error; rewrite Hr, He; reflexivity. }
  assert (i < length (recorders s))%nat as Hi by (eapply lookup_lt_Some, Hr).
  assert (s2 = set_recorders (<[i := stop false r]> (recorders s)) s1) as H2.
  { unfold s2. cbn [step]. unfold tick. rewrite H1. cbn.
    rewrite Hr, Ht, Hs. cbn. reflexivity. }
  rewrite H2, H1. cbn. repeat split; try assumption.
  apply list_lookup_insert_eq, Hi.
Qed.

(** X7.  [getConsoleMsg] clears the latched error.  After a matching
    console error the next tick of a timer that is still scheduled closes
    the input of its encoder even if an encoder error had been latched
    before, and the exit of the encoder then calls the callback once more,
    with the output path and no error. *)
Theorem console_error_clears_latched_error :
  forall (s : RRvideo) (msg : list ConsoleMessage) (i : nat) (r : Recorder)
         (shot : Screenshot),
    existsb is_uncaught_error msg = true ->
    recorders s !! i = Some r -> rec_timer r = true ->
    let s1 := step s (Console msg) in
    let s2 := step s1 (Tick i shot) in
    let s3 := step s2 (FfmpegClose i) in
    processError s1 = None
    /\ recorders s2 !! i = Some (stop true r)
    /\ cb_calls s3 = (cb_calls s1 ++ [(rec_outputPath r, None)])%list.
Proof.
  intros s msg i r shot Hmsg Hr Ht s1 s2 s3.
  destruct (getConsoleMsg_fields msg s) as (Hst & Hpe & _ & _ & Hrec).
  rewrite Hmsg in Hst, Hpe.
  assert (i < length (recorders s))%nat as Hi by (eapply lookup_lt_Some, Hr).
  assert (state s1 = closed) as Hst1 by exact Hst.
  assert (processError s1 = None) as Hpe1 by exact Hpe.
  assert (recorders s1 = recorders s) as Hrec1 by exact Hrec.
  clearbody s1.
  assert (recorders s1 !! i = Some r) as Hr1 by (rewrite Hrec1; exact Hr).
  assert (i < length (recorders s1))%nat as Hi1 by (rewrite Hrec1; exact Hi).
  assert (s2 = set_recorders (<[i := stop true r]> (recorders s1)) s1) as H2.
  { unfold s2. cbn [step].
    rewrite (tick_stops i shot s1 r Hr1 Ht) by (rewrite Hst1; discriminate).
    unfold no_error. rewrite Hst1, Hpe1. reflexivity. }
  split; [exact Hpe1|]. split.
  - rewrite H2. cbn. apply list_lookup_insert_eq, Hi1.
  - unfold s3. cbn [step]. unfold on_close, no_error. rewrite H2. cbn.
    rewrite (list_lookup_insert_eq _ _ _ Hi1), Hpe1. reflexivity.
Qed.

(** ** What can settle the promise, and with what *)

Lemma step_quiet s sig :
  quiet sig = true ->
  cb_calls (step s sig) = cb_calls s
  /\ promise (step s sig) = promise s
  /\ processError (step s sig) = processError s.
Proof.
  intros Hq.
  destruct sig as [[e|e|]|found| |msg|i shot|i|i e|i e]; try discriminate Hq;
    unfold step, init.
  - repeat split.
  - unfold startRecording. destruct (negb found); repeat split.
  - repeat split.
  - cbn [quiet] in Hq. apply negb_true_iff in Hq.
    rewrite (getConsoleMsg_quiet _ _ Hq). repeat split.
  - destruct (tick_fields i shot s) as (_ & H2 & H3 & H4 & _).
    repeat split; assumption.
Qed.

(** X8.  The start signal, the finish signal, the ticks, a completed
    [init] and console messages without the marker never call the callback
    and never touch the promise or the latched error, in any number and
    order; in particular a start signal that does not find the element
    only throws, and a run made of such signals alone stays pending. *)
Theorem quiet_signals_never_settle :
  forall (sigs : list Signal) (s : RRvideo),
    forallb quiet sigs = true ->
    cb_calls (run sigs s) = cb_calls s
    /\ promise (run sigs s) = promise s
    /\ processError (run sigs s) = processError s
    /\ uncaught (step s (OnReplayStart false))
       = (uncaught s ++ [{| message := "failed to get replayer element" |}])%list
    /\ recorders (step s (OnReplayStart false)) = recorders s.
Proof.
  induction sigs as [|sig sigs IH]; intros s Hq.
  - repeat split.
  - cbn [forallb] in Hq. apply andb_true_iff in Hq as [Hsig Hq].
    rewrite run_cons.
    destruct (IH (step s sig) Hq) as (H1 & H2 & H3 & _).
    destruct (step_quiet s sig Hsig) as (H1' & H2' & H3').
    rewrite H1, H2, H3, H1', H2', H3'. repeat split.
Qed.

Lemma step_call_ok c s sig :
  config s = c ->
  Forall (recorder_ok c) (recorders s) ->
  Forall (call_ok c) (cb_calls s) ->
  Forall (call_ok c) (cb_calls (step s sig)).
Proof.
  intros Hc Hrec Hall.
  assert (forall file error t,
            cb_calls t = cb_calls s -> call_ok c (file, error) ->
            Forall (call_ok c) (cb_calls (call_cb file error t))) as Hcall.
  { intros file error t Ht Hok. cbn. rewrite Ht. apply Forall_app.
    split; [exact Hall|]. repeat constructor. exact Hok. }
  destruct sig as [[e|e|]|found| |msg|i shot|i|i e|i e]; unfold step, init.
  - apply Hcall; [reflexivity|]. repeat split.
  - apply Hcall; [reflexivity|]. repeat split.
  - exact Hall.
  - unfold startRecording. destruct (negb found); exact Hall.
  - exact Hall.
  - destruct (getConsoleMsg_fields msg s) as (_ & _ & _ & -> & _).
    apply Forall_app. split; [exact Hall|].
    apply Forall_forall. intros call Hin.
    apply list_elem_of_In, in_map_iff in Hin as (m & <- & Hm).
    apply filter_In in Hm as [_ Hm]. unfold call_ok, console_call. cbn.
    split; [apply is_uncaught_error_truthy, Hm|].
    apply is_uncaught_error_prefix, Hm.
  - destruct (tick_fields i shot s) as (_ & _ & _ & -> & _). exact Hall.
  - unfold on_close. destruct (recorders s !! i) as [r|] eqn:Hr; [|exact Hall].
    destruct (no_error s); [|exact Hall].
    apply Hcall; [reflexivity|].
    apply (Forall_lookup_1 _ _ _ _ Hrec Hr).
  - unfold on_error. destruct (recorders s !! i) as [r|]; [|exact Hall].
    destruct (no_error s); [|exact Hall].
    apply Hcall; [reflexivity|]. repeat split.
  - unfold on_error. destruct (recorders s !! i) as [r|]; [|exact Hall].
    destruct (no_error s); [|exact Hall].
    apply Hcall; [reflexivity|]. repeat split.
Qed.

Lemma run_call_ok c sigs : forall s,
  config s = c ->
  Forall (recorder_ok c) (recorders s) ->
  Forall (call_ok c) (cb_calls s) ->
  Forall (call_ok c) (cb_calls (run sigs s)).
Proof.
  induction sigs as [|sig sigs IH]; intros s Hc Hrec Hall; [exact Hall|].
  rewrite run_cons. apply IH.
  - rewrite step_config. exact Hc.
  - apply step_recorder_ok; assumption.
  - apply step_call_ok; assumption.
Qed.

(** X9.  What the caller of [transformToVideo] can receive.  If the
    promise is fulfilled, its value is the output path computed from the
    configuration: [output] itself when [path.isAbsolute] accepts it, and
    [path.resolve(process.cwd(), output)] otherwise; the empty path of the
    failure calls is never delivered as a success.  If it is rejected with
    a string, the string starts with the marker. *)
Theorem settled_values :
  forall (c : Options) (sigs : list Signal),
    let s := run sigs (transformToVideo c) in
    (forall file, promise s = Fulfilled file -> file = outputPath (config s))
    /\ (forall text,
          promise s = Rejected (RawText text) ->
          String.prefix marker text = true)
    /\ (path_isAbsolute (output (config s)) = true ->
        outputPath (config s) = output (config s))
    /\ (path_isAbsolute (output (config s)) = false ->
        outputPath (config s) = path_resolve cwd (output (config s))).
Proof.
  intros c sigs s.
  assert (config s = config (transformToVideo c)) as Hc by apply run_config.
  assert (Forall (call_ok (config s)) (cb_calls s)) as Hcalls.
  { rewrite Hc. apply run_call_ok; [reflexivity|constructor|constructor]. }
  assert (promise s = first_outcome (cb_calls s)) as Hp
    by apply run_latched, transformToVideo_latched.
  unfold outputPath.
  split; [|split; [|split; intros ->; reflexivity]].
  - intros file Hf. rewrite Hp in Hf.
    destruct (cb_calls s) as [|[f e] calls]; [discriminate Hf|].
    apply Forall_cons_iff in Hcalls as [Hcall _].
    unfold call_ok in Hcall. cbn [fst snd] in Hcall.
    unfold first_outcome, promise_cb in Hf.
    destruct e as [fl|].
    + destruct Hcall as [Ht _]. rewrite Ht in Hf. discriminate Hf.
    + injection Hf as <-. exact Hcall.
  - intros text Hf. rewrite Hp in Hf.
    destruct (cb_calls s) as [|[f e] calls]; [discriminate Hf|].
    apply Forall_cons_iff in Hcalls as [Hcall _].
    unfold call_ok in Hcall. cbn [fst snd] in Hcall.
    unfold first_outcome, promise_cb in Hf.
    destruct e as [fl|]; [|discriminate Hf].
    destruct Hcall as [Ht Hok]. rewrite Ht in Hf. injection Hf as ->.
    exact Hok.
Qed.

(** X10.  The test of [getConsoleMsg] accepts a message exactly when its
    type is ["error"] and its text starts with the marker; a console event
    none of whose messages passes it (a warning with the marker, an error
    with the marker further inside the text) leaves the instance as it
    was. *)
Theorem console_event_without_marker_is_ignored :
  forall (s : RRvideo) (msg : list ConsoleMessage),
    (forall m,
       is_uncaught_error m = true <->
       msg_type m = "error" /\ exists rest, msg_text m = marker +:+ rest)
    /\ ((forall m, In m msg ->
                   msg_type m <> "error"
                   \/ String.prefix marker (msg_text m) = false) ->
        step s (Console msg) = s).
Proof.
  intros s msg. split.
  - intros m. split.
    + intros Hm. apply is_uncaught_error_prefix in Hm as [Ht Hp].
      split; [exact Ht|]. apply prefix_split, Hp.
    + intros [Ht [rest Hrest]]. unfold is_uncaught_error.
      apply andb_true_iff. split; [apply bool_decide_eq_true_2, Ht|].
      apply Z.eqb_eq, indexOf_zero_prefix. rewrite Hrest. apply prefix_append.
  - intros Hall. cbn [step]. apply getConsoleMsg_quiet.
    destruct (existsb is_uncaught_error msg) eqn:E; [|reflexivity].
    apply existsb_exists in E as (m & Hin & Hm).
    apply is_uncaught_error_prefix in Hm as [Ht Hp].
    destruct (Hall m Hin) as [Hn|Hn]; [contradiction|congruence].
Qed.

(** ** The configuration during a run *)

Lemma or_default_truthy {A} (truthy : A -> bool) a d :
  truthy d = true -> truthy (or_default truthy a d) = true.
Proof.
  intros Hd. unfold or_default. destruct a as [x|]; [|exact Hd].
  destruct (truthy x) eqn:E; [exact E|exact Hd].
Qed.

Lemma effective_fps_truthy o : truthy_number (fps (effective_config o)) = true.
Proof. apply or_default_truthy. reflexivity. Qed.

(** X11.  The configuration is fixed by the constructor and no handler
    changes it.  Whatever was passed, the frame rate is neither [0] nor
    [NaN], so the interval [1000 / fps] of the timer is never a division
    by zero, and the output path is not empty; and [transformToVideo]
    installs its own callback whatever [cb] the caller put into the
    options. *)
Theorem configuration_fixed_and_usable :
  forall (o : option Options) (c : Options) (sigs : list Signal),
    config (run sigs (new_RRvideo o)) = effective_config o
    /\ fps (effective_config o) <> Num 0
    /\ fps (effective_config o) <> NaN
    /\ output (effective_config o) <> EmptyString
    /\ cb (config (run sigs (transformToVideo c))) = PromiseCb.
Proof.
  intros o c sigs.
  pose proof (effective_fps_truthy o) as Hf.
  assert (truthy_string (output (effective_config o)) = true) as Ho
    by (apply or_default_truthy; reflexivity).
  split; [apply run_config|]. repeat split.
  - intros E. rewrite E in Hf. discriminate Hf.
  - intros E. rewrite E in Hf. discriminate Hf.
  - intros E. rewrite E in Ho. discriminate Ho.
  - rewrite run_config. reflexivity.
Qed.

Lemma parse_toString z : parse_int (toString (Num z)) = Some z.
Proof.
  unfold parse_int, toString. rewrite NilZero.isi.
  - cbn. rewrite DecimalZ.of_to. reflexivity.
  - intros E. pose proof (DecimalZ.of_to z) as Hz. rewrite E in Hz.
    cbn in Hz. subst z. discriminate E.
  - intros E. pose proof (DecimalZ.of_to z) as Hz. rewrite E in Hz.
    cbn in Hz. subst z. discriminate E.
Qed.

(** X12.  When the frame rate is configured as an integer [n] other than
    [0] that JavaScript represents exactly (below [2^53] in absolute
    value), the argument given to [ffmpeg] after ["-framerate"] is the
    decimal numeral of [n]: it reads back as [n].  When no frame rate is
    configured, or [0] or [NaN], the argument is ["15"]. *)
Theorem framerate_argument_reads_back :
  forall (c : Options) (n : Z),
    let args := ffmpeg_args (effective_config (Some c)) in
    args !! 0%nat = Some "-framerate"
    /\ (opt_fps c = Some (Num n) -> n <> 0 -> Z.abs n < 2 ^ 53 ->
        (args !! 1%nat) ≫= parse_int = Some n)
    /\ (truthy_prop truthy_number (opt_fps c) = false ->
        args !! 1%nat = Some "15").
Proof.
  intros c n args. unfold args, ffmpeg_args, effective_config, or_default.
  cbn [fps mbind option_bind lookup list_lookup].
  split; [reflexivity|]. split.
  - intros -> Hn _. cbn [truthy_number].
    destruct (n =? 0) eqn:E; [apply Z.eqb_eq in E; contradiction|].
    cbn [negb]. apply parse_toString.
  - destruct (opt_fps c) as [m|]; cbn [truthy_prop]; [|reflexivity].
    intros ->. reflexivity.
Qed.

(** ** The interval callback with its [await] *)

Lemma fine_run_cons sig sigs f :
  fine_run (sig :: sigs) f = fine_run sigs (fine_step f sig).
Proof. reflexivity. Qed.

Lemma fine_run_app a b f : fine_run (a ++ b) f = fine_run b (fine_run a f).
Proof. unfold fine_run. apply fold_left_app. Qed.

Lemma same_but_recorders a b :
  set_recorders [] a = set_recorders [] b -> a = set_recorders (recorders a) b.
Proof. destruct a, b. cbn. intros [= -> -> -> -> -> -> -> -> ->]. reflexivity. Qed.

Lemma controls_insert (g : Recorder -> Recorder) (l : list Recorder) (i : nat) r :
  l !! i = Some r -> controls (g r) = controls r ->
  controls <$> <[i := g r]> l = controls <$> l.
Proof.
  intros Hr Hg. rewrite list_fmap_insert, Hg. apply list_insert_id.
  rewrite list_lookup_fmap, Hr. reflexivity.
Qed.

(** The atomic tick is the schedule in which the screenshot settles
    before anything else happens. *)
Lemma tick_is_begin_then_settle f i shot :
  take_pending i (pending f) = None ->
  fine_step (fine_step f (TickBegin i)) (ShotSettled i shot)
  = {| inst := tick i shot (inst f); pending := pending f |}.
Proof.
  intros Hp. destruct f as [s p]. cbn in *. unfold tick_begin, tick. cbn.
  destruct (recorders s !! i) as [r|] eqn:Hr.
  - destruct (negb (rec_timer r)).
    + unfold shot_settled. cbn. rewrite Hp. reflexivity.
    + destruct (bool_decide (state s = recording) && no_error s).
      * assert (i < length (recorders s))%nat as Hi
          by (eapply lookup_lt_Some, Hr).
        unfold shot_settled. cbn. rewrite Nat.eqb_refl.
        rewrite (list_lookup_insert_eq _ _ _ Hi).
        destruct shot; [reflexivity|].
        rewrite list_insert_insert_eq. reflexivity.
      * unfold shot_settled. cbn. rewrite Hp. reflexivity.
  - unfold shot_settled. cbn. rewrite Hp. reflexivity.
Qed.

Lemma shot_settled_keeps i shot f :
  set_recorders [] (inst (shot_settled i shot f)) = set_recorders [] (inst f)
  /\ controls <$> recorders (inst (shot_settled i shot f))
     = controls <$> recorders (inst f).
Proof.
  unfold shot_settled. destruct (take_pending i (pending f)); [|split; reflexivity].
  destruct shot; [split; reflexivity|].
  destruct (recorders (inst f) !! i) as [r|] eqn:Hr; [|split; reflexivity].
  cbn. split; [reflexivity|].
  apply (controls_insert (wrote buffer)); [exact Hr|reflexivity].
Qed.

Lemma tick_begin_keeps i f :
  state (inst f) = recording -> processError (inst f) = None ->
  set_recorders [] (inst (tick_begin i f)) = set_recorders [] (inst f)
  /\ controls <$> recorders (inst (tick_begin i f))
     = controls <$> recorders (inst f).
Proof.
  intros Hs He. unfold tick_begin, no_error. rewrite Hs, He.
  destruct (recorders (inst f) !! i) as [r|] eqn:Hr; [|split; reflexivity].
  destruct (negb (rec_timer r)); [split; reflexivity|].
  cbn. split; [reflexivity|].
  apply (controls_insert started); [exact Hr|reflexivity].
Qed.

Lemma capturing_keeps sigs : forall f,
  forallb capturing sigs = true ->
  state (inst f) = recording -> processError (inst f) = None ->
  set_recorders [] (inst (fine_run sigs f)) = set_recorders [] (inst f)
  /\ controls <$> recorders (inst (fine_run sigs f))
     = controls <$> recorders (inst f).
Proof.
  induction sigs as [|sig sigs IH]; intros f Hsigs Hs He; [split; reflexivity|].
  cbn [forallb] in Hsigs. apply andb_true_iff in Hsigs as [Hsig Hsigs].
  rewrite fine_run_cons.
  assert (set_recorders [] (inst (fine_step f sig)) = set_recorders [] (inst f)
          /\ controls <$> recorders (inst (fine_step f sig))
             = controls <$> recorders (inst f)) as [H1 H2].
  { destruct sig as [sig|i|i shot]; [discriminate Hsig| |]; cbn [fine_step].
    - apply tick_begin_keeps; assumption.
    - apply shot_settled_keeps. }
  destruct (IH (fine_step f sig) Hsigs) as [H3 H4].
  - apply (f_equal state) in H1. cbn in H1. congruence.
  - apply (f_equal processError) in H1. cbn in H1. congruence.
  - split; congruence.
Qed.

Lemma settling_keeps sigs : forall f,
  forallb settling sigs = true ->
  set_recorders [] (inst (fine_run sigs f)) = set_recorders [] (inst f)
  /\ controls <$> recorders (inst (fine_run sigs f))
     = controls <$> recorders (inst f).
Proof.
  induction sigs as [|sig sigs IH]; intros f Hsigs; [split; reflexivity|].
  cbn [forallb] in Hsigs. apply andb_true_iff in Hsigs as [Hsig Hsigs].
  rewrite fine_run_cons. destruct (IH (fine_step f sig) Hsigs) as [H3 H4].
  destruct sig as [sig|i|i shot]; try discriminate Hsig. cbn [fine_step] in *.
  destruct (shot_settled_keeps i shot f) as [H1 H2]. split; congruence.
Qed.

Lemma rejecting_keeps sigs : forall f,
  forallb rejecting sigs = true -> inst (fine_run sigs f) = inst f.
Proof.
  induction sigs as [|sig sigs IH]; intros f Hsigs; [reflexivity|].
  cbn [forallb] in Hsigs. apply andb_true_iff in Hsigs as [Hsig Hsigs].
  rewrite fine_run_cons, (IH _ Hsigs).
  destruct sig as [sig|i|i [|b]]; try discriminate Hsig.
  cbn [fine_step]. unfold shot_settled.
  destruct (take_pending i (pending f)); reflexivity.
Qed.

(** X1.  The whole successful run, with the screenshots settling whenever
    they do.  After [init] and a start signal that finds the element:
    ticks and settling screenshots in any number and order, the finish
    signal, more screenshots settling, the tick that finds the state
    [closed], and the exit of the encoder fulfil the promise with the
    output path, provided every screenshot that settles after that last
    tick is a rejection.  The callback is called once, the encoder input
    is not closed before the finish signal and is closed once after it,
    nothing is written after it was closed, and the browser is closed
    once. *)
Theorem successful_run_resolves_with_output_path :
  forall (c : Options) (before after late : list FineSignal),
    forallb capturing before = true ->
    forallb settling after = true ->
    forallb rejecting late = true ->
    let s0 := run [Init InitDone; OnReplayStart true] (transformToVideo c) in
    let f1 := fine_run (before ++ Whole OnReplayFinish :: after)
                {| inst := s0; pending := [] |} in
    let f2 := fine_step f1 (TickBegin 0) in
    let f := fine_run (late ++ [Whole (FfmpegClose 0)]) f2 in
    promise (inst f) = Fulfilled (outputPath (config s0))
    /\ cb_calls (inst f) = [(outputPath (config s0), None)]
    /\ state (inst f) = closed
    /\ browser_close (inst f) = 1%nat
    /\ (rec_stdin_end <$> recorders (inst f1)) = [0%nat]
    /\ (rec_stdin_end <$> recorders (inst f)) = [1%nat]
    /\ (rec_timer <$> recorders (inst f)) = [false]
    /\ (rec_written <$> recorders (inst f)) = (rec_written <$> recorders (inst f1)).
Proof.
  intros c before after late Hbefore Hafter Hlate s0 f1 f2 f.
  pose (fA := fine_run before {| inst := s0; pending := [] |}).
  destruct (capturing_keeps before {| inst := s0; pending := [] |} Hbefore
              eq_refl eq_refl) as [HA1 HA2].
  fold fA in HA1, HA2.
  destruct (settling_keeps after (fine_step fA (Whole OnReplayFinish)) Hafter)
    as [HB1 HB2].
  assert (f1 = fine_run after (fine_step fA (Whole OnReplayFinish))) as Hf1
    by (unfold f1; rewrite fine_run_app; reflexivity).
  rewrite <- Hf1 in HB1, HB2. cbn [fine_step inst step] in HB1, HB2.
  assert (set_recorders [] (inst f1) = set_recorders [] (finishRecording s0)) as H1.
  { rewrite HB1. change (set_recorders [] (finishRecording (inst fA)))
      with (finishRecording (set_recorders [] (inst fA))).
    rewrite HA1. reflexivity. }
  assert (controls <$> recorders (inst f1)
          = [(true, 0%nat, outputPath (config s0))]) as H2.
  { rewrite HB2. change (recorders (finishRecording (inst fA)))
      with (recorders (inst fA)). rewrite HA2. reflexivity. }
  apply same_but_recorders in H1.
  destruct (recorders (inst f1)) as [|r1 [|r rest]] eqn:Hrec; try discriminate H2.
  injection H2 as Ht He Ho.
  assert (inst f2 = set_recorders [stop true r1] (finishRecording s0)) as H3.
  { unfold f2. cbn [fine_step]. unfold tick_begin, no_error.
    rewrite H1. cbn. rewrite Ht. reflexivity. }
  assert (inst f = call_cb (outputPath (config s0)) None (inst f2)) as H4.
  { unfold f. rewrite fine_run_app. cbn [fine_run fold_left fine_step inst].
    rewrite (rejecting_keeps late f2 Hlate).
    unfold step, on_close, no_error. rewrite H3. cbn. rewrite Ho. reflexivity. }
  rewrite H4, H3. cbn. rewrite He. repeat split; reflexivity.
Qed.

(** X16.  The callback of the interval does not read the guard again
    after its [await].  A screenshot that was started while recording and
    settles successfully only after the finish signal and the tick that
    closed the encoder input is still written: [stdin.write] is called
    after [stdin.end]. *)
Theorem late_screenshot_is_written_after_end :
  forall (f : Fine) (i : nat) (r : Recorder) (buffer : Buffer),
    recorders (inst f) !! i = Some r -> rec_timer r = true ->
    state (inst f) = recording -> processError (inst f) = None ->
    let f3 := fine_run [TickBegin i; Whole OnReplayFinish; TickBegin i] f in
    let f4 := fine_step f3 (ShotSettled i (ShotOk buffer)) in
    recorders (inst f3) !! i = Some (stop true (started r))
    /\ recorders (inst f4) !! i = Some (wrote buffer (stop true (started r)))
    /\ rec_stdin_end (wrote buffer (stop true (started r))) = S (rec_stdin_end r)
    /\ rec_written (wrote buffer (stop true (started r)))
       = (rec_written r ++ [buffer])%list.
Proof.
  intros f i r buffer Hr Ht Hs He f3 f4.
  assert (i < length (recorders (inst f)))%nat as Hi
    by (eapply lookup_lt_Some, Hr).
  assert (f3 = {| inst := set_recorders (<[i := stop true (started r)]>
                                            (recorders (inst f)))
                            (finishRecording (inst f));
                  pending := i :: pending f |}) as H3.
  { assert (tick_begin i f
            = {| inst := set_recorders (<[i := started r]> (recorders (inst f)))
                           (inst f);
                 pending := i :: pending f |}) as H1
      by (unfold tick_begin, no_error; rewrite Hr, Ht, Hs, He; reflexivity).
    unfold f3. cbn [fine_run fold_left fine_step]. rewrite H1.
    unfold tick_begin, no_error.
    cbn [inst pending step finishRecording browser_close_call set_state
         set_recorders recorders state processError].
    rewrite (list_lookup_insert_eq _ _ _ Hi).
    cbn [started rec_timer]. rewrite Ht, He.
    rewrite (bool_decide_eq_false_2 (closed = recording)) by discriminate.
    rewrite (bool_decide_eq_true_2 (closed = closed)) by reflexivity.
    cbn [negb andb]. rewrite list_insert_insert_eq. reflexivity. }
  assert (i < length (<[i := stop true (started r)]> (recorders (inst f))))%nat
    as Hi' by (rewrite length_insert; exact Hi).
  split; [|split; [|split; reflexivity]].
  - rewrite H3. cbn. apply list_lookup_insert_eq, Hi.
  - unfold f4. rewrite H3. cbn [fine_step]. unfold shot_settled. cbn.
    rewrite Nat.eqb_refl, (list_lookup_insert_eq _ _ _ Hi). cbn.
    rewrite list_insert_insert_eq. apply list_lookup_insert_eq, Hi.
Qed.

(** ** The latched error *)

Lemma step_calls_grow s sig :
  exists more, cb_calls (step s sig) = (cb_calls s ++ more)%list.
Proof.
  destruct sig as [[e|e|]|found| |msg|i shot|i|i e|i e]; unfold step, init;
    try (eexists; cbn; reflexivity);
    try (exists []; rewrite app_nil_r; reflexivity).
  - exists []. rewrite app_nil_r. unfold startRecording.
    destruct (negb found); reflexivity.
  - destruct (getConsoleMsg_fields msg s) as (_ & _ & _ & -> & _). eauto.
  - destruct (tick_fields i shot s) as (_ & _ & _ & -> & _).
    exists []. rewrite app_nil_r. reflexivity.
  - unfold on_close. destruct (recorders s !! i);
      [destruct (no_error s)|]; try (eexists; cbn; reflexivity);
      exists []; rewrite app_nil_r; reflexivity.
  - unfold on_error. destruct (recorders s !! i);
      [destruct (no_error s)|]; try (eexists; cbn; reflexivity);
      exists []; rewrite app_nil_r; reflexivity.
  - unfold on_error. destruct (recorders s !! i);
      [destruct (no_error s)|]; try (eexists; cbn; reflexivity);
      exists []; rewrite app_nil_r; reflexivity.
Qed.

Lemma step_error_reported c s sig :
  config s = c ->
  Forall (recorder_ok c) (recorders s) ->
  (forall e, processError s = Some e ->
             In (outputPath c, Some (ErrorObject e)) (cb_calls s)) ->
  forall e, processError (step s sig) = Some e ->
            In (outputPath c, Some (ErrorObject e)) (cb_calls (step s sig)).
Proof.
  intros Hc Hrec Hs e.
  assert (processError (step s sig) = processError s ->
          processError (step s sig) = Some e ->
          In (outputPath c, Some (ErrorObject e)) (cb_calls (step s sig)))
    as Hsame.
  { intros Heq He. rewrite Heq in He.
    destruct (step_calls_grow s sig) as [more ->].
    apply in_or_app. left. apply Hs, He. }
  destruct sig as [[e'|e'|]|found| |msg|i shot|i|i e'|i e']; unfold step, init in *;
    try (apply Hsame; reflexivity).
  - apply Hsame. unfold startRecording. destruct (negb found); reflexivity.
  - destruct (existsb is_uncaught_error msg) eqn:Hq.
    + destruct (getConsoleMsg_fields msg s) as (_ & -> & _). rewrite Hq.
      discriminate.
    + apply Hsame. rewrite (getConsoleMsg_quiet _ _ Hq). reflexivity.
  - apply Hsame. apply tick_fields.
  - apply Hsame. unfold on_close. destruct (recorders s !! i); [|reflexivity].
    destruct (no_error s); reflexivity.
  - unfold on_error in *. destruct (recorders s !! i) as [r|] eqn:Hr;
      [|apply Hsame; reflexivity].
    destruct (no_error s); [|apply Hsame; reflexivity].
    cbn. intros [= <-]. apply in_or_app. right. left.
    destruct (Forall_lookup_1 _ _ _ _ Hrec Hr) as (_ & _ & _ & -> & _).
    reflexivity.
  - unfold on_error in *. destruct (recorders s !! i) as [r|] eqn:Hr;
      [|apply Hsame; reflexivity].
    destruct (no_error s); [|apply Hsame; reflexivity].
    cbn. intros [= <-]. apply in_or_app. right. left.
    destruct (Forall_lookup_1 _ _ _ _ Hrec Hr) as (_ & _ & _ & -> & _).
    reflexivity.
Qed.

(** X13.  An error is never latched silently: whenever [processError]
    holds an error, the callback has been called with the output path and
    that very error, and the promise is no longer pending. *)
Theorem latched_error_was_reported :
  forall (c : Options) (sigs : list Signal) (e : Error),
    let s := run sigs (transformToVideo c) in
    processError s = Some e ->
    In (outputPath (config s), Some (ErrorObject e)) (cb_calls s)
    /\ promise s <> Pending.
Proof.
  intros c sigs e s He. split.
  - assert (forall t,
              Forall (recorder_ok (config t)) (recorders t) ->
              (forall e, processError t = Some e ->
                         In (outputPath (config t), Some (ErrorObject e))
                           (cb_calls t)) ->
              forall e, processError (run sigs t) = Some e ->
                        In (outputPath (config (run sigs t)), Some (ErrorObject e))
                          (cb_calls (run sigs t))) as Hgen.
    { clear. induction sigs as [|sig sigs IH]; intros t Hrec Ht e He;
        [apply Ht, He|].
      rewrite run_cons in *. apply IH; [| |exact He].
      - rewrite step_config. apply step_recorder_ok; [reflexivity|exact Hrec].
      - rewrite step_config. apply step_error_reported;
          [reflexivity|exact Hrec|exact Ht]. }
    apply Hgen; [constructor|discriminate|exact He].
  - apply (run_error_settled sigs (transformToVideo c)).
    + reflexivity.
    + intros Habs. exfalso. apply Habs. reflexivity.
    + fold s. rewrite He. discriminate.
Qed.

(** ** The page *)

(** X14.  The start of the playback in the page.  [start] calls
    [onReplayStart] and [play] at once exactly when [autoPlay] is [true],
    and then the player is also told to play by itself; otherwise it hands
    [setTimeout] the configured [startDelayTime] as it is whenever that is
    a truthy number, a negative one included, and 1000 when
    [startDelayTime] is missing, [0] or [NaN]; the value handed over is
    never [0] or [NaN]. *)
Theorem start_delay_contract :
  forall (p : PlayerOptions),
    (playbackDelay p = None <-> autoPlay p = Some true)
    /\ (forall d,
          playbackDelay p = Some d ->
          d <> Num 0 /\ d <> NaN /\ (startDelayTime p = Some d \/ d = Num 1000))
    /\ (forall d,
          startDelayTime p = Some d -> truthy_number d = true ->
          autoPlay p <> Some true -> playbackDelay p = Some d)
    /\ props_autoPlay (playerProps p) = startsImmediately p.
Proof.
  intros p. unfold playbackDelay, startsImmediately, startDelay, playerProps,
    or_default. cbn.
  split; [|split; [|split]].
  - destruct (autoPlay p) as [[|]|]; cbn; split; intros H;
      solve [reflexivity | discriminate H].
  - intros d. destruct (autoPlay p) as [[|]|]; cbn; try discriminate;
      intros [= <-];
      (destruct (startDelayTime p) as [n|]; [destruct (truthy_number n) eqn:E|]);
      repeat split; try discriminate; auto;
      intros ->; discriminate E.
  - intros d -> Hd Ha. rewrite Hd.
    destruct (autoPlay p) as [[|]|]; cbn; [contradiction|reflexivity|reflexivity].
  - destruct (autoPlay p) as [[|]|]; reflexivity.
Qed.

(** X15.  The events are embedded exactly as [JSON.stringify] printed them
    if and only if that text contains no ["</script>"]; and escaping an
    escaped text changes nothing more. *)
Theorem events_embedded_verbatim_iff_no_closing_tag :
  forall (E : Type) (stringify : list E -> string) (events : list E) (text : string),
    (embedded_events stringify events = stringify events <->
     occurs script_close (stringify events) = false)
    /\ replace script_close script_close_escaped
         (replace script_close script_close_escaped text)
       = replace script_close script_close_escaped text.
Proof.
  intros E stringify events text. unfold embedded_events. split.
  - split.
    + intros H. rewrite <- H. apply replace_removes.
    + apply replace_id.
  - apply replace_id, replace_removes.
Qed.

End Further.

(** ** The further properties at concrete inputs *)

Lemma input_not_closed_before_a_closing_signal_witness :
  let s := run [Init InitDone; OnReplayStart true; Tick 0 ShotFails;
                FfmpegError 0 spawn_error; Tick 0 ShotFails; OnReplayStart true]
             (new_RRvideo (Some sample_options)) in
  length (recorders s) = 2%nat
  /\ state s <> closed
  /\ Forall (fun r => rec_stdin_end r = 0%nat) (recorders s).
Proof.
  split; [reflexivity|].
  exact (input_not_closed_before_a_closing_signal (Some sample_options)
           [Init InitDone; OnReplayStart true; Tick 0 ShotFails;
            FfmpegError 0 spawn_error; Tick 0 ShotFails; OnReplayStart true]
           eq_refl).
Defined.

Lemma latched_error_was_reported_witness :
  processError sample_failed = Some spawn_error
  /\ In ("/home/user/rrvideo-output.mp4", Some (ErrorObject spawn_error))
       (cb_calls sample_failed)
  /\ promise sample_failed <> Pending.
Proof.
  split; [reflexivity|].
  exact (latched_error_was_reported sample_options
           [Init InitDone; OnReplayStart true; FfmpegError 0 spawn_error]
           spawn_error eq_refl).
Defined.

Lemma successful_run_resolves_with_output_path_witness :
  let before := [TickBegin 0; TickBegin 0; ShotSettled 0 (ShotOk []);
                 ShotSettled 0 ShotFails; TickBegin 0] in
  let after := [ShotSettled 0 (ShotOk [])] in
  let s0 := run [Init InitDone; OnReplayStart true] (transformToVideo sample_options) in
  let f1 := fine_run (before ++ Whole OnReplayFinish :: after)
              {| inst := s0; pending := [] |} in
  let f2 := fine_step f1 (TickBegin 0) in
  let f := fine_run ([] ++ [Whole (FfmpegClose 0)]) f2 in
  promise (inst f) = Fulfilled (outputPath (config s0))
  /\ cb_calls (inst f) = [(outputPath (config s0), None)]
  /\ state (inst f) = closed
  /\ browser_close (inst f) = 1%nat
  /\ (rec_stdin_end <$> recorders (inst f1)) = [0%nat]
  /\ (rec_stdin_end <$> recorders (inst f)) = [1%nat]
  /\ (rec_timer <$> recorders (inst f)) = [false]
  /\ (rec_written <$> recorders (inst f)) = (rec_written <$> recorders (inst f1)).
Proof.
  intros before after s0 f1 f2 f.
  apply (successful_run_resolves_with_output_path sample_options before after []);
    reflexivity.
Defined.

Lemma late_screenshot_is_written_after_end_witness :
  let f4 := fine_run [TickBegin 0; Whole OnReplayFinish; TickBegin 0;
                      ShotSettled 0 (ShotOk [])]
              {| inst := sample_recording; pending := [] |} in
  (rec_stdin_end <$> recorders (inst f4)) = [1%nat]
  /\ (rec_written <$> recorders (inst f4)) = [[[]]]
  /\ recorders (inst f4) !! 0%nat
     = Some (wrote [] (stop true (started sample_recorder))).
Proof.
  pose proof (late_screenshot_is_written_after_end
                {| inst := sample_recording; pending := [] |} 0 sample_recorder []
                eq_refl eq_refl eq_refl eq_refl)
    as (_ & H2 & _).
  split; [reflexivity|]. split; [reflexivity|exact H2].
Defined.

Lemma framerate_argument_reads_back_witness :
  let c := {| opt_fps := Some (Num 30); opt_headless := None;
              opt_input := "events.json"; opt_cb := None; opt_output := None;
              opt_rrwebPlayer := None |} in
  ffmpeg_args (effective_config (Some c)) !! 1%nat = Some "30"
  /\ (ffmpeg_args (effective_config (Some c)) !! 1%nat) ≫= parse_int = Some 30
  /\ ffmpeg_args (effective_config (Some falsy_options)) !! 1%nat = Some "15".
Proof.
  intros c.
  pose proof (framerate_argument_reads_back c 30) as (_ & H2 & _).
  pose proof (framerate_argument_reads_back falsy_options 0) as (_ & _ & H3).
  split; [reflexivity|]. split.
  - apply H2; [reflexivity|discriminate|reflexivity].
  - apply H3. reflexivity.
Defined.

Lemma encoder_error_stops_capture_only_witness :
  let s2 := run [StdinError 0 pipe_error; Tick 0 (ShotOk [])] sample_recording in
  state s2 = recording /\ browser_close s2 = 0%nat
  /\ promise s2 = Rejected (ErrorObject pipe_error)
  /\ recorders s2 !! 0%nat = Some (stop false sample_recorder).
Proof.
  pose proof (encoder_error_stops_capture_only sample_recording 0 sample_recorder
                pipe_error (ShotOk []) (StdinError 0 pipe_error)
                (or_intror eq_refl) eq_refl eq_refl eq_refl eq_refl)
    as (_ & _ & H3 & H4 & _ & H6).
  split; [exact H3|]. split; [exact H4|]. split; [reflexivity|exact H6].
Defined.

Lemma console_error_clears_latched_error_witness :
  processError sample_failed = Some spawn_error
  /\ let s3 := run [Console [sample_console_error]; Tick 0 ShotFails; FfmpegClose 0]
                 sample_failed in
     processError s3 = None
     /\ recorders s3 !! 0%nat = Some (stop true sample_recorder)
     /\ cb_calls s3
        = [("/home/user/rrvideo-output.mp4", Some (ErrorObject spawn_error));
           (EmptyString, Some (RawText sample_error_text));
           ("/home/user/rrvideo-output.mp4", None)].
Proof.
  pose proof (console_error_clears_latched_error sample_failed
                [sample_console_error] 0 sample_recorder ShotFails
                eq_refl eq_refl eq_refl)
    as (H1 & H2 & H3).
  split; [reflexivity|]. split; [reflexivity|]. split; [exact H2|].
  exact H3.
Defined.

Lemma quiet_signals_never_settle_witness :
  let s := run [Init InitDone; OnReplayStart false; OnReplayFinish;
                Tick 0 ShotFails]
             (transformToVideo sample_options) in
  promise s = Pending /\ cb_calls s = [] /\ recorders s = []
  /\ uncaught s = [{| message := "failed to get replayer element" |}].
Proof.
  pose proof (quiet_signals_never_settle
                [Init InitDone; OnReplayStart false; OnReplayFinish;
                 Tick 0 ShotFails]
                (transformToVideo sample_options) eq_refl)
    as (H1 & H2 & _).
  split; [exact H2|]. split; [exact H1|]. split; reflexivity.
Defined.

Lemma settled_values_witness :
  promise (run [OnReplayFinish; Tick 0 ShotFails; FfmpegClose 0] sample_recording)
  = Fulfilled "/home/user/rrvideo-output.mp4"
  /\ outputPath (config sample_recording) = "/home/user/rrvideo-output.mp4"
  /\ String.prefix marker sample_error_text = true.
Proof.
  pose proof (settled_values sample_options
                [Init InitDone; OnReplayStart true; OnReplayFinish;
                 Tick 0 ShotFails; FfmpegClose 0])
    as (H1 & _ & _ & H4).
  pose proof (settled_values sample_options [Console [sample_console_error]])
    as (_ & H2 & _).
  split; [reflexivity|]. split; [exact (H4 eq_refl)|].
  apply H2. reflexivity.
Defined.

Lemma console_event_without_marker_is_ignored_witness :
  let warning := {| msg_type := "warning"; msg_text := sample_error_text |} in
  let inside := {| msg_type := "error";
                   msg_text := "Error: Replayer Uncaught Error: x" |} in
  step sample_recording (Console [warning; inside]) = sample_recording
  /\ is_uncaught_error sample_console_error = true.
Proof.
  intros warning inside.
  pose proof (console_event_without_marker_is_ignored sample_recording
                [warning; inside]) as [H1 H2].
  split.
  - apply H2. intros m [<-|[<-|[]]]; [left; discriminate|right; reflexivity].
  - apply H1. split; [reflexivity|].
    exists " Cannot read property 'x' of undefined". reflexivity.
Defined.

Lemma start_delay_contract_witness :
  let negative := {| width := None; height := None; autoPlay := None;
                     showController := None;
                     startDelayTime := Some (Num (-5)) |} in
  let zero := {| width := None; height := None; autoPlay := None;
                 showController := None; startDelayTime := Some (Num 0) |} in
  let half := {| width := None; height := None; autoPlay := Some false;
                 showController := None; startDelayTime := Some (Num 500) |} in
  let auto := {| width := None; height := None; autoPlay := Some true;
                 showController := None; startDelayTime := Some (Num 500) |} in
  playbackDelay zero = Some (Num 1000)
  /\ playbackDelay half = Some (Num 500)
  /\ playbackDelay auto = None
  /\ playbackDelay negative = Some (Num (-5)).
Proof.
  intros negative zero half auto.
  pose proof (start_delay_contract half) as (_ & _ & H3 & _).
  pose proof (start_delay_contract auto) as (H1 & _).
  pose proof (start_delay_contract negative) as (_ & _ & H4 & _).
  split; [reflexivity|]. split; [|split].
  - apply H3; [reflexivity|reflexivity|discriminate].
  - apply H1. reflexivity.
  - apply H4; [reflexivity|reflexivity|discriminate].
Defined.

Lemma events_embedded_verbatim_iff_no_closing_tag_witness :
  embedded_events (fun _ : list unit => "[{x:1}]") [] = "[{x:1}]".
Proof.
  apply (events_embedded_verbatim_iff_no_closing_tag unit
           (fun _ => "[{x:1}]") [] EmptyString).
  reflexivity.
Defined.
